(** * Load-balancer servo: value cache, policy registry and handlers

    A shallow embedding of the activity value cache of [main.go], the
    HAProxy configuration handler of [haproxy_manager.go] and the composite
    handler, with the properties of the reconciliation engine proved over
    it; and of the code around them: the channel handler, the handling of
    an activity task and the polling loop of [main.go], the registration of
    the activities of [swf_client.go], the options of the command line and
    the durations of [redis_handler.go].

    Conventions.
    - A Go [string] is a byte sequence: Rocq's [string] (a list of [ascii]).
    - A Go [error] is modelled by its message; [nil] is [None].
    - A Go [map] is a [gmap]; a [range] over a map yields the entries in an
      order the language leaves unspecified, so every function that ranges
      over a map takes the order from [rangeMap], about which only
      [rangeMap m ≡ₚ map_to_list m] is assumed.
    - [time.Time] is the number of seconds since the epoch.
    - A call that panics or does not return has the outcome [Panics] or
      [Blocks]; the libraries the code calls (XML, the configuration
      parser, Redis, the workflow service) are classes of operations. *)

From Stdlib Require Import ZArith Ascii String List Lia.
From stdpp Require Import gmap strings list fin_maps.

Local Open Scope Z_scope.

(** ** Bytes and SHA-1 ([crypto/sha1], [fmt.Sprintf("%x", ...)]) *)

Module Sha1.

Definition byte_of_ascii (a : ascii) : Z := Z.of_N (N_of_ascii a).

(** [[]byte(value)] *)
Definition bytes_of_string (s : string) : list Z :=
  map byte_of_ascii (list_ascii_of_string s).

Definition w32 (x : Z) : Z := x mod 2 ^ 32.

Definition add32 (x y : Z) : Z := w32 (x + y).

Definition rotl (n x : Z) : Z :=
  w32 (Z.lor (Z.shiftl x n) (Z.shiftr x (32 - n))).

Definition not32 (x : Z) : Z := Z.lxor x (2 ^ 32 - 1).

(** The big-endian bytes of an unsigned [n]-byte number. *)
Fixpoint be_bytes (n : nat) (x : Z) : list Z :=
  match n with
  | O => []
  | S n' => (Z.shiftr x (8 * Z.of_nat n')) mod 256 :: be_bytes n' x
  end.

(** Message padding: a one bit, zeros up to 56 modulo 64, then the
    length in bits on 8 bytes. *)
Definition pad (msg : list Z) : list Z :=
  let len := Z.of_nat (length msg) in
  msg ++ [128] ++ repeat 0 (Z.to_nat ((55 - len) mod 64))
      ++ be_bytes 8 (8 * len).

Fixpoint be_word (bs : list Z) : Z :=
  match bs with
  | [] => 0
  | b :: bs' => Z.lor (Z.shiftl b (8 * Z.of_nat (length bs'))) (be_word bs')
  end.

(** The [n] first big-endian 32-bit words of a block. *)
Fixpoint words_of (n : nat) (bs : list Z) : list Z :=
  match n with
  | O => []
  | S n' => be_word (take 4 bs) :: words_of n' (drop 4 bs)
  end.

(** Message schedule, most recent word first: [rw] holds
    [w(t-1), w(t-2), ...]. *)
Fixpoint schedule (n : nat) (rw : list Z) : list Z :=
  match n with
  | O => rw
  | S n' =>
      let x := Z.lxor (Z.lxor (nth 2 rw 0) (nth 7 rw 0))
                      (Z.lxor (nth 13 rw 0) (nth 15 rw 0)) in
      schedule n' (rotl 1 x :: rw)
  end.

Record digest := Digest { h0 : Z; h1 : Z; h2 : Z; h3 : Z; h4 : Z }.

Definition init : digest :=
  Digest 0x67452301 0xEFCDAB89 0x98BADCFE 0x10325476 0xC3D2E1F0.

Definition round_f (t : nat) (b c d : Z) : Z :=
  if (t <? 20)%nat then Z.lor (Z.land b c) (Z.land (not32 b) d)
  else if (t <? 40)%nat then Z.lxor (Z.lxor b c) d
  else if (t <? 60)%nat then
    Z.lor (Z.lor (Z.land b c) (Z.land b d)) (Z.land c d)
  else Z.lxor (Z.lxor b c) d.

Definition round_k (t : nat) : Z :=
  if (t <? 20)%nat then 0x5A827999
  else if (t <? 40)%nat then 0x6ED9EBA1
  else if (t <? 60)%nat then 0x8F1BBCDC
  else 0xCA62C1D6.

Fixpoint rounds (t : nat) (ws : list Z) (s : digest) : digest :=
  match ws with
  | [] => s
  | w :: ws' =>
      let '(Digest a b c d e) := s in
      let tmp :=
        add32 (add32 (add32 (add32 (rotl 5 a) (round_f t b c d)) e) w)
              (round_k t) in
      rounds (S t) ws' (Digest tmp a (rotl 30 b) c d)
  end.

Definition block (s : digest) (bs : list Z) : digest :=
  let ws := rev (schedule 64 (rev (words_of 16 bs))) in
  let '(Digest a b c d e) := rounds 0 ws s in
  Digest (add32 (h0 s) a) (add32 (h1 s) b) (add32 (h2 s) c)
         (add32 (h3 s) d) (add32 (h4 s) e).

Fixpoint blocks (n : nat) (s : digest) (bs : list Z) : digest :=
  match n with
  | O => s
  | S n' => blocks n' (block s (take 64 bs)) (drop 64 bs)
  end.

(** [sha1.Sum(data)]: the 20 bytes of the digest. *)
Definition Sum (data : list Z) : list Z :=
  let p := pad data in
  let '(Digest a b c d e) := blocks (length p / 64) init p in
  be_bytes 4 a ++ be_bytes 4 b ++ be_bytes 4 c ++ be_bytes 4 d
           ++ be_bytes 4 e.

Definition hex_digit (n : nat) : ascii :=
  match n with
  | 0%nat => "0" | 1%nat => "1" | 2%nat => "2" | 3%nat => "3"
  | 4%nat => "4" | 5%nat => "5" | 6%nat => "6" | 7%nat => "7"
  | 8%nat => "8" | 9%nat => "9" | 10%nat => "a" | 11%nat => "b"
  | 12%nat => "c" | 13%nat => "d" | 14%nat => "e" | _ => "f"
  end%char.

(** [%x] of one byte: two lower-case digits. *)
Definition hex_byte (b : Z) : list ascii :=
  [hex_digit (Z.to_nat (b / 16 mod 16)); hex_digit (Z.to_nat (b mod 16))].

(** [fmt.Sprintf("%x", bytes)] *)
Definition hex (bs : list Z) : string :=
  string_of_list_ascii (concat (map hex_byte bs)).

(** [fmt.Sprintf("%x", sha1.Sum([]byte(value)))] *)
Definition sum_hex (value : string) : string :=
  hex (Sum (bytes_of_string value)).

End Sha1.

(** ** The hash pattern ([regexp.MatchString("[0-9a-fA-F]{40}", value)])

    The pattern is not anchored: it matches when 40 consecutive characters
    of the class occur anywhere in the value.  The characters of the class
    are ASCII, so the scan over bytes agrees with the scan over runes. *)

Definition is_hex (c : ascii) : bool :=
  let n := nat_of_ascii c in
  ((48 <=? n) && (n <=? 57) || (97 <=? n) && (n <=? 102)
   || (65 <=? n) && (n <=? 70))%nat.

(** [scan need left l]: [left] more characters of the class complete a
    run of [need]; any other character starts the count again. *)
Fixpoint scan (need left : nat) (l : list ascii) {struct l} : bool :=
  match left with
  | O => true
  | S left' =>
      match l with
      | [] => false
      | c :: l' => if is_hex c then scan need left' l' else scan need need l'
      end
  end.

Definition hashRunLength : nat := 40.

Definition matchHash (value : string) : bool :=
  scan hashRunLength hashRunLength (list_ascii_of_string value).

(** The reading of the pattern as a substring property. *)
Definition hex_run_in (n : nat) (l : list ascii) : Prop :=
  ∃ pre run post : list ascii,
    l = pre ++ run ++ post ∧ length run = n ∧ Forall (λ c, is_hex c = true) run.

Definition contains_hash (value : string) : Prop :=
  hex_run_in hashRunLength (list_ascii_of_string value).

(** ** Go values shared by the components *)

(** An [error] is its message; [nil] is [None] of [option error]. *)
Definition error : Type := string.

(** A call returning [(T, error)] where the value is used only when the
    error is [nil]. *)
Inductive result (A : Type) : Type :=
| Ok (a : A)
| Err (e : error).
Arguments Ok {A} a.
Arguments Err {A} e.

(** The order in which [for k, v := range m] presents the entries of [m].
    The language does not specify it, and it may differ between two maps
    and between two runs. *)
Class MapRange : Type :=
  rangeMap : ∀ V : Type, gmap string V → list (string * V).

(** What the language does promise: every entry is presented once. *)
Definition MapRangeOk (R : MapRange) : Prop :=
  ∀ (V : Type) (m : gmap string V), rangeMap V m ≡ₚ map_to_list m.

(** ** The activity value cache ([main.go]) *)

(** [time.Time], in seconds since the epoch. *)
Definition time_Time : Type := Z.

(** [t.Second()]: the second offset within the minute, in the range 0..59. *)
Definition Second (t : time_Time) : Z := t mod 60.

(** Cache time for activity values, from last access *)
Definition ActivityCacheSeconds : Z := 300.

(** CachedValue is an activity value and time of last access *)
Record CachedValue : Type := mkCachedValue {
  Time : time_Time;
  Value : string
}.

(** The state of the package variable [ActivityValuesBySha1]: the value
    caches by workflow activity name.  An activity without an entry reads
    as the [nil] map. *)
Abbreviation ValueCaches := (gmap string (gmap string CachedValue)).

(** The initial value of [ActivityValuesBySha1]. *)
Definition ActivityValuesBySha1 : ValueCaches :=
  <["LoadBalancingVmActivities.setLoadBalancer" := ∅]>
    (<["LoadBalancingVmActivities.setPolicy" := ∅]> ∅).

(** The test of [cacheMaintain] on one entry:
    [timeNow.Second() > (cachedValue.Time.Second() + ActivityCacheSeconds)] *)
Definition isStale (timeNow : time_Time) (cachedValue : CachedValue) : bool :=
  Second timeNow >? Second (Time cachedValue) + ActivityCacheSeconds.

(** The first loop of [cacheMaintain]: the set [staleKeys]. *)
Definition staleKeysOf `{MapRange} (valueCache : gmap string CachedValue)
    (timeNow : time_Time) : gmap string bool :=
  foldl (λ staleKeys '(key, cachedValue),
           if isStale timeNow cachedValue then <[key := true]> staleKeys
           else staleKeys)
        ∅ (rangeMap _ valueCache).

(** The second loop of [cacheMaintain]: [delete(valueCache, staleKey)]. *)
Definition deleteKeys `{MapRange} (staleKeys : gmap string bool)
    (valueCache : gmap string CachedValue) : gmap string CachedValue :=
  foldl (λ cache '(staleKey, _), delete staleKey cache)
        valueCache (rangeMap _ staleKeys).

(** Maintain the cache by removing stale keys *)
Definition cacheMaintain `{MapRange} (caches : ValueCaches) (activity : string)
    (timeNow : time_Time) : ValueCaches :=
  match caches !! activity with
  | None => caches
  | Some valueCache =>
      <[activity := deleteKeys (staleKeysOf valueCache timeNow) valueCache]>
        caches
  end.

(** [valueCache[valueSha1] = cachedValue] for
    [valueCache := ActivityValuesBySha1[activity]]; the assignment to an
    entry of the [nil] map panics. *)
Definition cacheAssign (caches : ValueCaches) (activity valueSha1 : string)
    (cachedValue : CachedValue) : option ValueCaches :=
  match caches !! activity with
  | None => None
  | Some valueCache =>
      Some (<[activity := <[valueSha1 := cachedValue]> valueCache]> caches)
  end.

(** Handle cache for an activity value.
    The value may be a full activity value or its SHA-1 hash.

    The result is [None] when the call panics, and otherwise the returned
    value with the caches after the call. *)
Definition activityValueCache `{MapRange} (caches : ValueCaches)
    (activity value : string) (timeNow : time_Time)
    : option (string * ValueCaches) :=
  let valueCache := caches !! activity in
  let '(valueSha1, value') :=
    if matchHash value then
      match valueCache ≫= (λ c, c !! value) with
      | Some cachedValue => (value, Value cachedValue)
      | None => (value, ""%string)
      end
    else (Sha1.sum_hex value, value) in
  let stored :=
    if decide (value' ≠ ""%string)
    then cacheAssign caches activity valueSha1 (mkCachedValue timeNow value')
    else Some caches in
  match stored with
  | None => None
  | Some caches' => Some (value', cacheMaintain caches' activity timeNow)
  end.

(** The caches the program can reach: from the initial ones by calls of
    [activityValueCache] (store of a literal value, lookup by hash) and of
    [cacheMaintain], under any iteration order of the maps. *)
Inductive reachable : ValueCaches → Prop :=
| reachable_init : reachable ActivityValuesBySha1
| reachable_value (R : MapRange) caches activity value timeNow result caches' :
    MapRangeOk R →
    reachable caches →
    activityValueCache caches activity value timeNow = Some (result, caches') →
    reachable caches'
| reachable_maintain (R : MapRange) caches activity timeNow :
    MapRangeOk R →
    reachable caches →
    reachable (cacheMaintain caches activity timeNow).

(** Every entry's key is the digest of its own value. *)
Definition keyed_by_digest (caches : ValueCaches) : Prop :=
  ∀ activity valueCache key cachedValue,
    caches !! activity = Some valueCache →
    valueCache !! key = Some cachedValue →
    key = Sha1.sum_hex (Value cachedValue).
(** ** Activity descriptions ([ActivityDescriptions] and its members)

    Two structures of the source have fields [InstancePort] and
    [PolicyNames]; those of [ActivityBackendServer] carry the prefix
    [Backend] here. *)

Record ActivityPolicyAttribute : Type := mkActivityPolicyAttribute {
  AttributeName : string;
  AttributeValue : string
}.

Record ActivityPolicy : Type := mkActivityPolicy {
  PolicyName : string;
  PolicyTypeName : string;
  PolicyAttributes : list ActivityPolicyAttribute
}.

Record ActivityLoadBalancerListener : Type := mkActivityLoadBalancerListener {
  Protocol : string;
  LoadBalancerPort : Z;
  InstanceProtocol : string;
  InstancePort : Z;
  PolicyNames : list string
}.

Record ActivityBackendServer : Type := mkActivityBackendServer {
  BackendInstancePort : Z;
  BackendPolicyNames : list string
}.

Record ActivityBackendInstance : Type := mkActivityBackendInstance {
  InstanceId : string;
  InstanceIpAddress : string;
  ReportHealthCheck : bool
}.

Record ActivityHealthCheck : Type := mkActivityHealthCheck {
  Target : string;
  Interval : Z;
  Timeout : Z;
  UnhealthyThreshold : string;
  HealthyThreshold : string
}.

Record ActivityConnectionSettings : Type := mkActivityConnectionSettings {
  IdleTimeout : Z
}.

Record ActivityLoadBalancerAttributes : Type :=
  mkActivityLoadBalancerAttributes {
  CrossZoneLoadBalancing : bool;
  AccessLog : bool;
  ConnectionDraining : bool;
  ConnectionSettings : ActivityConnectionSettings
}.

Record ActivityLoadBalancer : Type := mkActivityLoadBalancer {
  LoadBalancerName : string;
  DNSName : string;
  Scheme : string;
  VPCId : string;
  Subnets : list string;
  AvailabilityZones : list string;
  Listeners : list ActivityLoadBalancerListener;
  PolicyDescriptions : list ActivityPolicy;
  BackendServers : list ActivityBackendServer;
  BackendInstances : list ActivityBackendInstance;
  SecurityGroups : list string;
  SourceSecurityGroup : string;
  HealthCheck : ActivityHealthCheck;
  CreatedTime : time_Time;
  LoadBalancerAttributes : ActivityLoadBalancerAttributes
}.

(** ActivityDescriptions is the holder for all activity values.
    An activity value is a single ActivityLoadBalancer with either a single
    ActivityPolicy or all other ActivityLoadBalancer attributes *)
Record ActivityDescriptions : Type := mkActivityDescriptions {
  LoadBalancers : list ActivityLoadBalancer
}.

(** [loadBalancer.PolicyDescriptions = policies] *)
Definition withPolicyDescriptions (loadBalancer : ActivityLoadBalancer)
    (policies : list ActivityPolicy) : ActivityLoadBalancer :=
  mkActivityLoadBalancer
    (LoadBalancerName loadBalancer) (DNSName loadBalancer)
    (Scheme loadBalancer) (VPCId loadBalancer) (Subnets loadBalancer)
    (AvailabilityZones loadBalancer) (Listeners loadBalancer)
    policies
    (BackendServers loadBalancer) (BackendInstances loadBalancer)
    (SecurityGroups loadBalancer) (SourceSecurityGroup loadBalancer)
    (HealthCheck loadBalancer) (CreatedTime loadBalancer)
    (LoadBalancerAttributes loadBalancer).

(** [encoding/xml]: [xml.Unmarshal] into an empty [ActivityDescriptions].
    The structure is returned with the error, as in the source. *)
Class XmlDecoder : Type :=
  xml_Unmarshal : string → ActivityDescriptions * option error.

(** Parse XML descriptions string to ActivityDescriptions *)
Definition ActivityDescriptionsString `{XmlDecoder} (descriptions : string)
    : ActivityDescriptions * option error :=
  xml_Unmarshal descriptions.

(** ** The configuration parser ([haproxytech/config-parser])

    The library is not part of the repository: its parser is a type with
    the four operations the handler uses.  A failed operation leaves no
    parser behind, the handler drops it in that case. *)

Inductive parser_Section : Type :=
| Defaults
| Frontends
| Backends.

Inductive HTTPAction : Type :=
| SetHeader (Name Fmt : string).

Record ServerOption : Type := ServerOptionValue {
  OptionName : string;
  OptionValue : string
}.

Record Server : Type := mkServer {
  ServerName : string;
  Address : string;
  Params : list ServerOption
}.

(** The values of [common.ParserData] the handler builds. *)
Inductive ParserData : Type :=
| StringC (Value : string)
| Bind (Path : string)
| Log (Address Facility Level : string)
| OptionForwardFor (Except : string)
| SimpleTimeout (Value : string)
| HTTPActions (actions : list HTTPAction)
| Action (action : HTTPAction)
| Balance (Algorithm : string) (Arguments : list string) (Comment : string)
| Cookie (Name Type_ : string) (Indirect : bool) (Maxidle Maxlife : Z)
| Servers (servers : list Server).

Class ConfigParser : Type := {
  Parser : Type;
  (** [parser.ParseData] on a new parser *)
  ParseData : string → result Parser;
  (** [parser.SectionsCreate] *)
  SectionsCreate : parser_Section → string → Parser → result Parser;
  (** [parser.Set] *)
  ParserSet : parser_Section → string → string → ParserData → Parser
              → result Parser;
  (** [parser.String] *)
  ParserString : Parser → string
}.

(** HA-Proxy configuration *)
Definition HaproxyConfigurationString `{ConfigParser} (configuration : string)
    : result Parser :=
  ParseData configuration.

(** [strings.ReplaceAll(value, " ", `\ `)] *)
Fixpoint escapeSpaces (value : string) : string :=
  match value with
  | EmptyString => EmptyString
  | String c rest =>
      if Ascii.eqb c " " then String "\" (String " " (escapeSpaces rest))
      else String c (escapeSpaces rest)
  end.

Definition configStringC (value : string) : ParserData :=
  StringC (escapeSpaces value).

(** The loop of [UpdateConfigurationSection] over the attributes, in the
    order of the range; the first failure ends it. *)
Fixpoint setAttributes `{ConfigParser} (sectionType : parser_Section)
    (sectionName : string) (attributes : list (string * ParserData))
    (p : Parser) : result Parser :=
  match attributes with
  | [] => Ok p
  | (name, value) :: rest =>
      match ParserSet sectionType sectionName name value p with
      | Err e => Err e
      | Ok p' => setAttributes sectionType sectionName rest p'
      end
  end.

Definition UpdateConfigurationSection `{MapRange} `{ConfigParser}
    (haproxyConfiguration : Parser) (sectionType : parser_Section)
    (sectionName : string) (attributes : gmap string ParserData)
    : result Parser :=
  match SectionsCreate sectionType sectionName haproxyConfiguration with
  | Err e => Err e
  | Ok p => setAttributes sectionType sectionName (rangeMap _ attributes) p
  end.

(** The double quote, for the one value of the source that holds it. *)
Definition dquote : string := String (ascii_of_nat 34) EmptyString.

Definition frontendAttributes : gmap string ParserData :=
  <["http-request" := HTTPActions [SetHeader "X-Forwarded-Proto" "http";
                                   SetHeader "X-Forwarded-Port" "8080"]]>
  (<["default_backend" := configStringC "backend-http-8080"]>
  (<["timeout client" := SimpleTimeout "60s"]>
  (<["option forwardfor" := OptionForwardFor "127.0.0.1"]>
  (<["log" := Log "/var/lib/load-balancer-servo/haproxy.sock" "local2" "info"]>
  (<["log-format" := configStringC
       "httplog %Ts %ci %cp %si %sp %Tq %Tw %Tc %Tr %Tt %ST %U %B %f %b %s %ts %r %hrl"]>
  (<["bind" := Bind "0.0.0.0:8080"]>
  (<["mode" := configStringC "http"]> ∅))))))).

Definition backendAttributes : gmap string ParserData :=
  <["timeout server" := SimpleTimeout "60s"]>
  (<["server" := Servers [mkServer "http-8080" "10.111.10.215:8080"
                            [ServerOptionValue "cookie" "MTAuMTExLjEwLjIxNQ=="]]]>
  (<["cookie" := Cookie "AWSELB" "insert" true 300000 300000]>
  (<["http-response" := Action (SetHeader "Cache-control"
       ("no-cache=" +:+ dquote +:+ "set-cookie" +:+ dquote))]>
  (<["balance" := Balance "roundrobin" [] ""]>
  (<["mode" := configStringC "http"]> ∅))))).

(** Proof of concept configuration update.
    The given loadBalancer should be used to generate configuration.
    Currently values are hard-coded for testing configuration output. *)
Definition UpdateConfiguration `{MapRange} `{ConfigParser}
    (haproxyConfiguration : Parser) (loadBalancer : ActivityLoadBalancer)
    : result Parser :=
  match UpdateConfigurationSection haproxyConfiguration Frontends "http-8080"
          frontendAttributes with
  | Err e => Err e
  | Ok p =>
      UpdateConfigurationSection p Backends "backend-http-8080"
        backendAttributes
  end.
(** ** Activity handlers ([ActivityHandler]) *)

(** ActivityHandler handles in/out values for workflow activities.
    A handler acts on a world [W]; [Send] returns the error with the world
    after the call.  [Receive] returns the string with the error. *)
Record ActivityHandler (W : Type) : Type := mkActivityHandler {
  Send : string → string → W → option error * W;
  Receive : string → W → result string * W;
  Close : W → W
}.
Arguments mkActivityHandler {W} _ _ _.
Arguments Send {W} _ _ _ _.
Arguments Receive {W} _ _ _.
Arguments Close {W} _ _.

(** *** The composite handler *)

(** ActivityHandler implementation using underlying handlers *)
Record CompositeHandler (W : Type) : Type := mkCompositeHandler {
  Handlers : list (ActivityHandler W)
}.
Arguments mkCompositeHandler {W} _.
Arguments Handlers {W} _.

(** Create a CompositeHandler backed by the given handlers.
    The primary handler is used for both send and receive. Secondary
    handlers are used for sending only (listeners).
    A failure of the primary send will prevent secondary sends *)
Definition NewCompositeHandler {W : Type} (primary : ActivityHandler W)
    (secondaries : list (ActivityHandler W)) : CompositeHandler W :=
  mkCompositeHandler (([] ++ [primary]) ++ secondaries).

(** The loop [for _, secondary := range handler.Handlers[1:]], the error
    of each send dropped. *)
Fixpoint sendSecondaries {W : Type} (secondaries : list (ActivityHandler W))
    (name value : string) (w : W) : W :=
  match secondaries with
  | [] => w
  | secondary :: rest =>
      let '(_, w') := Send secondary name value w in
      sendSecondaries rest name value w'
  end.

(** [CompositeHandler.Send]; [None] is the panic of [handler.Handlers[0]]
    on a handler without handlers. *)
Definition CompositeHandler_Send {W : Type} (handler : CompositeHandler W)
    (name value : string) (w : W) : option (option error * W) :=
  match Handlers handler with
  | [] => None
  | primary :: secondaries =>
      let '(err, w1) := Send primary name value w in
      match err with
      | None => Some (err, sendSecondaries secondaries name value w1)
      | Some _ => Some (err, w1)
      end
  end.


Definition CompositeHandler_Close {W : Type} (handler : CompositeHandler W)
    (w : W) : W := w.

(** A record of the sends a world has seen: the handler, the name and the
    value of each, oldest first. *)
Definition SendLog : Type := list (nat * string * string).

(** The handler [h], known as [id], with each of its sends recorded. *)
Definition recorded {W : Type} (id : nat) (h : ActivityHandler W)
    : ActivityHandler (W * SendLog) :=
  mkActivityHandler
    (λ name value '(w, log),
       let '(err, w') := Send h name value w in
       (err, (w', log ++ [(id, name, value)])))
    (λ name '(w, log), let '(r, w') := Receive h name w in (r, (w', log)))
    (λ '(w, log), (Close h w, log)).

(** [secondaries] recorded under the identifiers [from], [from + 1], ... *)
Fixpoint recordedFrom {W : Type} (from : nat)
    (secondaries : list (ActivityHandler W))
    : list (ActivityHandler (W * SendLog)) :=
  match secondaries with
  | [] => []
  | h :: rest => recorded from h :: recordedFrom (S from) rest
  end.

(** The sends of [n] handlers in turn, from the identifier [from]. *)
Fixpoint sendsFrom (from n : nat) (name value : string) : SendLog :=
  match n with
  | O => []
  | S n' => (from, name, value) :: sendsFrom (S from) n' name value
  end.

(** *** The HAProxy configuration handler *)

(** What the handler does outside the program: the call of its template
    supplier, and the call of its configuration receiver with the data. *)
Inductive Effect : Type :=
| TemplateSupplied
| ConfigurationReceived (data : string).

(** The world of the handler: the package variable [PolicyCache] and the
    calls made so far, oldest first. *)
Record World : Type := mkWorld {
  Policies : gmap string ActivityPolicy;
  Effects : list Effect
}.

(** The initial value of [PolicyCache]. *)
Definition PolicyCache : gmap string ActivityPolicy := ∅.

(** ActivityHandler implementation for receiving configuration *)
Record HaproxyConfigurationHandler : Type := mkHaproxyConfigurationHandler {
  TemplateSupplier : unit → result string;
  ConfigurationReceiver : string → option error
}.

(** The first loop of [RetainOnly]: the policy names without a key in
    [retainKeys], in the order of the range. *)
Definition stalePolicyNamesOf `{MapRange} (retainKeys : gmap string string)
    (policies : gmap string ActivityPolicy) : list string :=
  foldl (λ stalePolicyNames '(policyName, _),
           match retainKeys !! policyName with
           | Some _ => stalePolicyNames
           | None => stalePolicyNames ++ [policyName]
           end)
        [] (rangeMap _ policies).

(** Purge stale cached items by retaining only keys from the given map *)
Definition RetainOnly `{MapRange} (retainKeys : gmap string string)
    (policies : gmap string ActivityPolicy) : gmap string ActivityPolicy :=
  foldl (λ policies' policyName, delete policyName policies')
        policies (stalePolicyNamesOf retainKeys policies).

Definition WriteConfiguration `{MapRange} `{ConfigParser}
    (handler : HaproxyConfigurationHandler)
    (loadBalancer : ActivityLoadBalancer) (w : World) : option error * World :=
  let w1 := mkWorld (Policies w) (Effects w ++ [TemplateSupplied]) in
  match TemplateSupplier handler tt with
  | Err err => (Some err, w1)
  | Ok configuration =>
      match HaproxyConfigurationString configuration with
      | Err err => (Some err, w1)
      | Ok haproxyConfiguration =>
          match UpdateConfiguration haproxyConfiguration loadBalancer with
          | Err err => (Some err, w1)
          | Ok haproxyConfiguration' =>
              let data := ParserString haproxyConfiguration' in
              (ConfigurationReceiver handler data,
               mkWorld (Policies w1)
                       (Effects w1 ++ [ConfigurationReceived data]))
          end
      end
  end.

Definition HandlePolicy `{XmlDecoder} (policy : string) (w : World)
    : option error * World :=
  let '(activityDescriptions, err) := ActivityDescriptionsString policy in
  match err, LoadBalancers activityDescriptions with
  | None, [loadBalancer] =>
      match PolicyDescriptions loadBalancer with
      | [activityPolicy] =>
          let name := PolicyName activityPolicy in
          (err, mkWorld (<[name := activityPolicy]> (Policies w)) (Effects w))
      | _ => (err, w)
      end
  | _, _ => (err, w)
  end.

(** [activePolicyNames[policyName] = policyName] for each name. *)
Definition addPolicyNames (policyNames : list string)
    (activePolicyNames : gmap string string) : gmap string string :=
  foldl (λ names policyName, <[policyName := policyName]> names)
        activePolicyNames policyNames.

(** The two loops of [HandleLoadBalancer] that fill [activePolicyNames]:
    over the listeners, then over the backend servers. *)
Definition activePolicyNamesOf (loadBalancer : ActivityLoadBalancer)
    : gmap string string :=
  foldl (λ names backend, addPolicyNames (BackendPolicyNames backend) names)
        (foldl (λ names listener, addPolicyNames (PolicyNames listener) names)
               ∅ (Listeners loadBalancer))
        (BackendServers loadBalancer).

(** The third loop of [HandleLoadBalancer], over the names as the range
    gives them: each policy found is appended to the descriptions, the
    first one missing ends the call with its error. *)
Fixpoint appendPolicies (policies : gmap string ActivityPolicy)
    (policyNames : list string) (descriptions : list ActivityPolicy)
    : result (list ActivityPolicy) :=
  match policyNames with
  | [] => Ok descriptions
  | policyName :: rest =>
      match policies !! policyName with
      | Some activePolicy =>
          appendPolicies policies rest (descriptions ++ [activePolicy])
      | None => Err ("policy not found " +:+ policyName)
      end
  end.

(** The descriptions [HandleLoadBalancer] attaches to the load balancer. *)
Definition resolvePolicies `{MapRange} (policies : gmap string ActivityPolicy)
    (loadBalancer : ActivityLoadBalancer) : result (list ActivityPolicy) :=
  appendPolicies policies
    (map snd (rangeMap _ (activePolicyNamesOf loadBalancer)))
    (PolicyDescriptions loadBalancer).

Definition HandleLoadBalancer `{MapRange} `{XmlDecoder} `{ConfigParser}
    (handler : HaproxyConfigurationHandler) (loadBalancer : string)
    (w : World) : option error * World :=
  let '(activityDescriptions, err) := ActivityDescriptionsString loadBalancer in
  match err, LoadBalancers activityDescriptions with
  | None, [loadBalancer] =>
      match PolicyDescriptions loadBalancer with
      | [] =>
          let activePolicyNames := activePolicyNamesOf loadBalancer in
          match resolvePolicies (Policies w) loadBalancer with
          | Err e => (Some e, w)
          | Ok descriptions =>
              let w1 :=
                mkWorld (RetainOnly activePolicyNames (Policies w))
                        (Effects w) in
              WriteConfiguration handler
                (withPolicyDescriptions loadBalancer descriptions) w1
          end
      | _ => (err, w)
      end
  | _, _ => (err, w)
  end.

Definition HaproxyConfigurationHandler_Send `{MapRange} `{XmlDecoder}
    `{ConfigParser} (handler : HaproxyConfigurationHandler)
    (name value : string) (w : World) : option error * World :=
  if String.eqb name "set-policy" then HandlePolicy value w
  else if String.eqb name "set-loadbalancer"
       then HandleLoadBalancer handler value w
       else (None, w).

Definition HaproxyConfigurationHandler_Receive (name : string) (w : World)
    : result string * World :=
  (Err "not supported"%string, w).

Definition HaproxyConfigurationHandler_Close (w : World) : World := w.

(** The handler as an [ActivityHandler], as [NewHaproxyConfigurationHandler]
    returns it. *)
Definition HaproxyActivityHandler `{MapRange} `{XmlDecoder} `{ConfigParser}
    (handler : HaproxyConfigurationHandler) : ActivityHandler World :=
  mkActivityHandler (HaproxyConfigurationHandler_Send handler)
                    HaproxyConfigurationHandler_Receive
                    HaproxyConfigurationHandler_Close.

(** *** The claims' words, for comparison with the code *)

(** The names a load balancer refers to, in the scan of its listeners
    followed by its backend servers. *)
Definition referencedNames (loadBalancer : ActivityLoadBalancer)
    : list string :=
  concat (map PolicyNames (Listeners loadBalancer))
  ++ concat (map BackendPolicyNames (BackendServers loadBalancer)).

(** Each name once, in the order of first occurrence. *)
Definition firstOccurrences (names : list string) : list string :=
  foldl (λ seen name, if decide (name ∈ seen) then seen else seen ++ [name])
        [] names.


(** ** Concrete runtimes and values, for the examples *)

(** Two iteration orders of a map: the entries as [map_to_list] lists
    them, and the same entries from the last to the first. *)
Definition rangeForward : MapRange := λ V m, map_to_list m.

Definition rangeBackward : MapRange := λ V m, reverse (map_to_list m).

(** A decoder given by the table of the documents it knows; any other
    input ends before a document is read. *)
Fixpoint decodeWith (table : list (string * ActivityDescriptions))
    (descriptions : string) : ActivityDescriptions * option error :=
  match table with
  | [] => (mkActivityDescriptions [], Some "EOF"%string)
  | (document, decoded) :: rest =>
      if String.eqb document descriptions then (decoded, None)
      else decodeWith rest descriptions
  end.

(** A parser that keeps the configuration as lines of text. *)
Definition sectionKeyword (sectionType : parser_Section) : string :=
  match sectionType with
  | Defaults => "defaults"
  | Frontends => "frontend"
  | Backends => "backend"
  end.

Definition lineParser : ConfigParser := {|
  Parser := list string;
  ParseData configuration :=
    if String.eqb configuration "" then Err "empty configuration"%string
    else Ok [configuration];
  SectionsCreate sectionType sectionName p :=
    Ok (p ++ [sectionKeyword sectionType +:+ " " +:+ sectionName]);
  ParserSet sectionType sectionName name value p :=
    Ok (p ++ ["  " +:+ name]);
  ParserString p := String.concat (String (ascii_of_nat 10) EmptyString) p
|}.

(** A parser that reads any configuration and refuses every section. *)
Definition readOnlyParser : ConfigParser := {|
  Parser := list string;
  ParseData configuration := Ok [configuration];
  SectionsCreate sectionType sectionName p :=
    Err "section not created"%string;
  ParserSet sectionType sectionName name value p :=
    Err "attribute not set"%string;
  ParserString p := String.concat (String (ascii_of_nat 10) EmptyString) p
|}.

Definition policyNamed (name : string) : ActivityPolicy :=
  mkActivityPolicy name "LBCookieStickinessPolicyType"
    [mkActivityPolicyAttribute "CookieExpirationPeriod" "300"].

(** A load balancer with one listener per list of [listenerNames], one
    backend server per list of [backendNames] and the given policies. *)
Definition loadBalancerWith (listenerNames backendNames : list (list string))
    (policies : list ActivityPolicy) : ActivityLoadBalancer :=
  mkActivityLoadBalancer "lb-1" "lb-1.example.internal" "internal" "" [] []
    (map (mkActivityLoadBalancerListener "HTTP" 80 "HTTP" 8080) listenerNames)
    policies
    (map (mkActivityBackendServer 8080) backendNames)
    [] [] ""
    (mkActivityHealthCheck "HTTP:8080/" 30 5 "2" "2")
    0
    (mkActivityLoadBalancerAttributes false false false
       (mkActivityConnectionSettings 60)).

Definition registryOf (names : list string) : gmap string ActivityPolicy :=
  foldl (λ policies name, <[name := policyNamed name]> policies) ∅ names.

(** A handler whose template cannot be read. *)
Definition noTemplateHandler : HaproxyConfigurationHandler :=
  mkHaproxyConfigurationHandler
    (λ _, Err "open haproxy.template: no such file or directory"%string)
    (λ _, None).

(** A handler with a template, whose configuration is accepted. *)
Definition fileHandler : HaproxyConfigurationHandler :=
  mkHaproxyConfigurationHandler (λ _, Ok "global"%string) (λ _, None).

(** A handler with a template, whose configuration cannot be written. *)
Definition readOnlyFileHandler : HaproxyConfigurationHandler :=
  mkHaproxyConfigurationHandler
    (λ _, Ok "global"%string)
    (λ _, Some "open haproxy.conf: permission denied"%string).

(** Handlers on a world without state: one that accepts every send and one
    that refuses every send. *)
Definition acceptingHandler : ActivityHandler unit :=
  mkActivityHandler (λ _ _ w, (None, w))
                    (λ _ w, (Err "not supported"%string, w)) (λ w, w).

Definition refusingHandler : ActivityHandler unit :=
  mkActivityHandler (λ _ _ w, (Some "connection refused"%string, w))
                    (λ _ w, (Err "not supported"%string, w)) (λ w, w).

Definition setPolicyActivity : string :=
  "LoadBalancingVmActivities.setPolicy".

(** The caches after the value [abc] was stored for [setPolicy] at time 0. *)
Definition agedCache : gmap string CachedValue :=
  <[Sha1.sum_hex "abc" := mkCachedValue 0 "abc"]> ∅.

Definition agedCaches : ValueCaches :=
  <[setPolicyActivity := agedCache]> ActivityValuesBySha1.

(** A value that holds a digest in the middle of other text. *)
Definition noteWithDigest : string :=
  "see " +:+ Sha1.sum_hex "abc" +:+ " for details".

(** The documents of the examples, with what they decode to: a load
    balancer whose listener names the policy [a]; one whose listener names
    [a] and [b] and whose backend server names [a] again; one whose listener
    names [a] and whose backend server names [c]; a snapshot without load
    balancers; and a load balancer that carries two policies. *)
Definition documents : list (string * ActivityDescriptions) :=
  [("<lb policies='a'/>"%string,
    mkActivityDescriptions [loadBalancerWith [["a"%string]] [] []]);
   ("<lb policies='a b a'/>"%string,
    mkActivityDescriptions
      [loadBalancerWith [["a"%string; "b"%string]] [["a"%string]] []]);
   ("<lb policies='a c'/>"%string,
    mkActivityDescriptions
      [loadBalancerWith [["a"%string]] [["c"%string]] []]);
   ("<empty/>"%string, mkActivityDescriptions []);
   ("<lb><policy name='a'/><policy name='b'/></lb>"%string,
    mkActivityDescriptions
      [loadBalancerWith [] [] [policyNamed "a"; policyNamed "b"]])].

Definition documentDecoder : XmlDecoder := decodeWith documents.

(** The world in which the policies [a] and [b] are registered and nothing
    has been read or written. *)
Definition registeredWorld : World :=
  mkWorld (registryOf ["a"%string; "b"%string]) [].

(** ** Strings, further

    The reverse of [escapeSpaces], to state what [configStringC] keeps: a
    backslash that stands before a space is dropped. *)
Fixpoint unescapeSpaces (value : string) : string :=
  match value with
  | EmptyString => EmptyString
  | String c rest =>
      match rest with
      | String c' rest' =>
          if Ascii.eqb c "\" && Ascii.eqb c' " "
          then String " " (unescapeSpaces rest')
          else String c (unescapeSpaces rest)
      | EmptyString => String c EmptyString
      end
  end.

(** ** The channel handler ([ChannelHandler])

    A call on a channel may not return: it panics, or it waits for another
    goroutine.  The calls are followed one at a time, so a call that waits
    is a call that does not return in the state it is made in. *)
Inductive outcome (A : Type) : Type :=
| Returns (a : A)
| Panics
| Blocks.
Arguments Returns {A} a.
Arguments Panics {A}.
Arguments Blocks {A}.

(** A channel of strings: its capacity (0 for a channel without buffer),
    the values sent and not yet received, oldest first, and whether it has
    been closed. *)
Record Channel : Type := mkChannel {
  Capacity : nat;
  Queue : list string;
  Closed : bool
}.

(** A value of type [chan string]: [nil], or a reference to a channel.
    Two names of a handler may hold the same channel. *)
Inductive chan : Type :=
| nilChan
| chanRef (id : nat).

(** The channels there are, by reference.  A reference without a channel
    reads as the [nil] channel. *)
Abbreviation ChannelStore := (gmap nat Channel).

(** [channel <- value]: a send on the [nil] channel waits for ever, a send
    on a closed channel panics, a send on a channel with room adds the
    value, and a send on a full channel waits. *)
Definition chanSend (channel : chan) (value : string) (store : ChannelStore)
    : outcome ChannelStore :=
  match channel with
  | nilChan => Blocks
  | chanRef id =>
      match store !! id with
      | None => Blocks
      | Some c =>
          if Closed c then Panics
          else if (length (Queue c) <? Capacity c)%nat
               then Returns (<[id := mkChannel (Capacity c)
                                       (Queue c ++ [value]) false]> store)
               else Blocks
      end
  end.

(** [<-channel]: the oldest value is taken; an empty channel that is
    closed gives the empty string, and an empty channel that is open, or
    the [nil] channel, waits. *)
Definition chanReceive (channel : chan) (store : ChannelStore)
    : outcome (string * ChannelStore) :=
  match channel with
  | nilChan => Blocks
  | chanRef id =>
      match store !! id with
      | None => Blocks
      | Some c =>
          match Queue c with
          | value :: rest =>
              Returns (value,
                       <[id := mkChannel (Capacity c) rest (Closed c)]> store)
          | [] => if Closed c then Returns (""%string, store) else Blocks
          end
      end
  end.

(** ActivityHandler implementation using Channels *)
Record ChannelHandler : Type := mkChannelHandler {
  Channels : gmap string chan
}.

(** Create a new Channel backed ActivityHandler. *)
Definition NewChannelHandler (channels : gmap string chan) : ChannelHandler :=
  mkChannelHandler channels.

Definition ChannelHandler_Send (handler : ChannelHandler)
    (name value : string) (store : ChannelStore)
    : outcome (option error * ChannelStore) :=
  match Channels handler !! name with
  | Some channel =>
      match chanSend channel value store with
      | Returns store' => Returns (None, store')
      | Panics => Panics
      | Blocks => Blocks
      end
  | None => Returns (Some ("channel not found: " +:+ name), store)
  end.

Definition ChannelHandler_Receive (handler : ChannelHandler) (name : string)
    (store : ChannelStore) : outcome (result string * ChannelStore) :=
  match Channels handler !! name with
  | Some channel =>
      match chanReceive channel store with
      | Returns (resultString, store') => Returns (Ok resultString, store')
      | Panics => Panics
      | Blocks => Blocks
      end
  | None => Returns (Err ("channel not found: " +:+ name), store)
  end.

Definition ChannelHandler_Close (store : ChannelStore) : ChannelStore := store.

(** ** Activities ([doActivity], [main.go]) *)

(** ActivityChannels maps workflow activity names to handler identifiers *)
Definition ActivityChannels : gmap string string :=
  <["LoadBalancingVmActivities.getCloudWatchMetrics" :=
      "get-cloudwatch-metrics"]>
  (<["LoadBalancingVmActivities.getInstanceStatus" := "get-instance-status"]>
  (<["LoadBalancingVmActivities.setLoadBalancer" := "set-loadbalancer"]>
  (<["LoadBalancingVmActivities.setPolicy" := "set-policy"]> ∅))).

(** ActivityDefaultValues maps workflow activity names to default values.
    A workflow activity that has no value is an out only activity and the
    default value will be sent. *)
Definition ActivityDefaultValues : gmap string string :=
  <["LoadBalancingVmActivities.getCloudWatchMetrics" :=
      "GetCloudWatchMetrics"]>
  (<["LoadBalancingVmActivities.getInstanceStatus" := "GetInstanceStatus"]>
     ∅).

(** ActivityLastValues tracks the last sent value by workflow activity
    name: its initial value. *)
Definition ActivityLastValues : gmap string string :=
  <["LoadBalancingVmActivities.setLoadBalancer" := ""]>
  (<["LoadBalancingVmActivities.setPolicy" := ""]> ∅).

(** [m[key]] on a map of strings: the empty string for a missing key. *)
Definition mapGet (m : gmap string string) (key : string) : string :=
  default ""%string (m !! key).

(** [s[n:]]: the bytes from [n] on; it panics ([None]) when [n] is beyond
    the end. *)
Definition sliceFrom (n : nat) (s : string) : option string :=
  if (n <=? String.length s)%nat
  then Some (String.substring n (String.length s - n) s)
  else None.

(** The package variables [doActivity] works on, and the files
    [storeActivityValue] has been asked to write: the path and the value of
    each call, oldest first. *)
Record ActivityState : Type := mkActivityState {
  LastValues : gmap string string;
  ValuesBySha1 : ValueCaches;
  ValueFiles : list (string * string)
}.

Definition initialActivityState : ActivityState :=
  mkActivityState ActivityLastValues ActivityValuesBySha1 [].

(** Store an activity value to disk by name: the file
    [fmt.Sprintf("%s/%s.xml", *runDir, name)] is created and the value is
    written to it. *)
Definition storeActivityValue (runDir name value : string)
    (files : list (string * string)) : list (string * string) :=
  files ++ [(runDir +:+ "/" +:+ name +:+ ".xml", value)].

(** [NewRedisHandler]: the connection is made, or the error is returned. *)
Class RedisDialer (W : Type) : Type :=
  NewRedisHandler : W → result (ActivityHandler W) * W.

(** The value of the first lines of [doActivity]: the parameter, or the
    default value of the activity. *)
Definition activityValueOf (activity : string) (parameter : option string)
    : string :=
  match parameter with
  | Some value => value
  | None => mapGet ActivityDefaultValues activity
  end.

(** The block [if lastValue, ok := ActivityLastValues[activity]; ok] of
    [doActivity]: the value goes through the cache, and a value that
    differs from the last one is recorded and stored to disk.  The result
    is the value to send, with the state at the return or at the panic. *)
Definition trackActivityValue `{MapRange} (runDir : string)
    (timeNow : time_Time) (activity value : string) (s : ActivityState)
    : outcome string * ActivityState :=
  match LastValues s !! activity with
  | Some lastValue =>
      match activityValueCache (ValuesBySha1 s) activity value timeNow with
      | None => (Panics, s)
      | Some (value', caches') =>
          let s1 := mkActivityState (LastValues s) caches' (ValueFiles s) in
          if decide (value' ≠ lastValue) then
            let s2 :=
              mkActivityState (<[activity := value']> (LastValues s)) caches'
                              (ValueFiles s) in
            match sliceFrom 4 (mapGet ActivityChannels activity) with
            | None => (Panics, s2)
            | Some name =>
                (Returns value',
                 mkActivityState (LastValues s2) (ValuesBySha1 s2)
                   (storeActivityValue runDir name value' (ValueFiles s2)))
            end
          else (Returns value', s1)
      end
  | None => (Returns value, s)
  end.

(** The rest of [doActivity]: a handler is made, the value is sent, and for
    an activity without parameter the reply is received.  The handler is
    closed when the call ends.  The error of [Receive] is dropped, and the
    string it returns is read: when [Receive] has failed there is no string
    and the call panics. *)
Definition deliverActivityValue {W : Type} `{RedisDialer W}
    (activity : string) (parameter : option string) (value : string) (w : W)
    : outcome (result (option string)) * W :=
  match NewRedisHandler w with
  | (Err err, w1) => (Returns (Err err), w1)
  | (Ok handler, w1) =>
      let '(err, w2) := Send handler (mapGet ActivityChannels activity) value
                             w1 in
      match err with
      | Some e => (Returns (Err e), Close handler w2)
      | None =>
          match parameter with
          | None =>
              let '(received, w3) :=
                Receive handler (mapGet ActivityChannels activity) w2 in
              match received with
              | Ok resultString =>
                  (Returns (Ok (Some resultString)), Close handler w3)
              | Err _ => (Panics, Close handler w3)
              end
          | Some _ => (Returns (Ok None), Close handler w2)
          end
      end
  end.

(** Handle an activity task with optional parameter.
    Responsible for managing the activity value cache and handler
    lifecycle. *)
Definition doActivity `{MapRange} {W : Type} `{RedisDialer W}
    (runDir : string) (timeNow : time_Time) (activity : string)
    (parameter : option string) (s : ActivityState) (w : W)
    : outcome (result (option string)) * ActivityState * W :=
  match trackActivityValue runDir timeNow activity
          (activityValueOf activity parameter) s with
  | (Returns value, s') =>
      let '(r, w') := deliverActivityValue activity parameter value w in
      (r, s', w')
  | (Panics, s') => (Panics, s', w)
  | (Blocks, s') => (Blocks, s', w)
  end.

(** The states the program reaches: from the initial one by calls of
    [doActivity], whose effect on the state is that of
    [trackActivityValue]. *)
Inductive activity_reachable : ActivityState → Prop :=
| activity_reachable_init : activity_reachable initialActivityState
| activity_reachable_step (R : MapRange) runDir timeNow activity value s :
    MapRangeOk R →
    activity_reachable s →
    activity_reachable
      (snd (trackActivityValue runDir timeNow activity value s)).

(** What the tracking of values relies on: an activity whose last value is
    tracked has a cache, and a channel name of four bytes at the least. *)
Definition trackable (s : ActivityState) : Prop :=
  ∀ activity,
    is_Some (LastValues s !! activity) →
    is_Some (ValuesBySha1 s !! activity)
    ∧ is_Some (sliceFrom 4 (mapGet ActivityChannels activity)).

(** ** The workflow client ([swf_client.go]) and the polling loop *)

(** The version to use for activity task registrations *)
Definition ActivityVersion : string := "1.0".

(** The default heartbeat timeout for activity task registrations *)
Definition DefaultTaskHeartbeatTimeout : string := "NONE".

(** The default start to close timeout for activity task registrations *)
Definition DefaultTaskStartToCloseTimeout : string := "60".

(** The default schedule to start timeout for activity task registrations *)
Definition DefaultTaskScheduleToStartTimeout : string := "60".

(** The default schedule to close timeout for activity task registrations *)
Definition DefaultTaskScheduleToCloseTimeout : string := "120".

(** [swf.ErrCodeTypeAlreadyExistsFault] *)
Definition ErrCodeTypeAlreadyExistsFault : string := "TypeAlreadyExistsFault".

(** [swf.RegisterActivityTypeInput], with the fields the client sets. *)
Record RegisterActivityTypeInput : Type := mkRegisterActivityTypeInput {
  InputDomain : option string;
  InputName : string;
  InputVersion : string;
  InputDescription : string;
  InputDefaultTaskHeartbeatTimeout : string;
  InputDefaultTaskStartToCloseTimeout : string;
  InputDefaultTaskScheduleToStartTimeout : string;
  InputDefaultTaskScheduleToCloseTimeout : string
}.

(** An error of the SDK: one that is an [awserr.Error], with its code, or
    any other; [errorText] is what [Error()] returns. *)
Inductive sdk_error : Type :=
| awserr_Error (code errorText : string)
| other_error (errorText : string).

(** [swfClient.Client.RegisterActivityType] *)
Class SwfService (S : Type) : Type :=
  RegisterActivityType : RegisterActivityTypeInput → S → option sdk_error * S.

Definition registerInput (domain : option string) (activityName : string)
    : RegisterActivityTypeInput :=
  mkRegisterActivityTypeInput domain activityName ActivityVersion ""
    DefaultTaskHeartbeatTimeout DefaultTaskStartToCloseTimeout
    DefaultTaskScheduleToStartTimeout DefaultTaskScheduleToCloseTimeout.

(** What [RegisterActivities] makes of an error of a registration: a type
    that exists already is no error, any other error is returned with the
    name of the activity. *)
Definition registrationError (activityName : string) (err : sdk_error)
    : option error :=
  match err with
  | awserr_Error code errorText =>
      if String.eqb code ErrCodeTypeAlreadyExistsFault then None
      else Some ("Error registering activity type " +:+ activityName
                 +:+ " " +:+ ActivityVersion +:+ ": " +:+ errorText)
  | other_error errorText =>
      Some ("Error registering activity type " +:+ activityName
            +:+ " " +:+ ActivityVersion +:+ ": " +:+ errorText
            +:+ String (ascii_of_nat 10) EmptyString)
  end.

(** The loop of [RegisterActivities] over the activity names, in the order
    of the range; the first error that is returned ends it. *)
Fixpoint registerEach {S : Type} `{SwfService S} (domain : option string)
    (activityNames : list string) (s : S) : option error * S :=
  match activityNames with
  | [] => (None, s)
  | activityName :: rest =>
      let '(err, s1) := RegisterActivityType (registerInput domain activityName)
                          s in
      match err ≫= registrationError activityName with
      | None => registerEach domain rest s1
      | Some e => (Some e, s1)
      end
  end.

(** Register the pre-defined activities under the specified workflow
    domain *)
Definition RegisterActivities `{MapRange} {S : Type} `{SwfService S}
    (domain : option string) (s : S) : option error * S :=
  registerEach domain (map fst (rangeMap _ ActivityChannels)) s.

(** Result type for activity task polling *)
Record SwfActivityTask : Type := mkSwfActivityTask {
  TaskToken : option string;
  TaskName : option string;
  TaskParameter : option string
}.

(** Facade for simple activity registration and task handling: the three
    calls of the polling loop, on the world [C] of the client. *)
Record SwfActivityClient (C : Type) : Type := mkSwfActivityClient {
  PollTasks : option string → option string → C
              → (SwfActivityTask * option error) * C;
  RespondTaskComplete : string → option string → C → option error * C;
  RespondTaskFailed : string → string → C → option error * C
}.
Arguments mkSwfActivityClient {C} _ _ _.
Arguments PollTasks {C} _ _ _ _.
Arguments RespondTaskComplete {C} _ _ _ _.
Arguments RespondTaskFailed {C} _ _ _ _.

(** One turn of the loop of [pollActivityTasks]: a task is polled for and,
    when there is one, handled and answered.  The loop itself never ends.
    The name of the task is read for the log before the activity is done:
    a task with a token and without a name panics. *)
Definition pollActivityTask `{MapRange} {W C : Type} `{RedisDialer W}
    (client : SwfActivityClient C) (runDir : string) (timeNow : time_Time)
    (domain taskList : option string) (s : ActivityState) (w : W) (c : C)
    : outcome unit * ActivityState * W * C :=
  let '((activityTask, err), c1) := PollTasks client domain taskList c in
  match err with
  | Some _ => (Returns tt, s, w, c1)
  | None =>
      match TaskToken activityTask with
      | None => (Returns tt, s, w, c1)
      | Some taskToken =>
          match TaskName activityTask with
          | None => (Panics, s, w, c1)
          | Some taskActivity =>
              let '(done, s', w') :=
                doActivity runDir timeNow taskActivity
                           (TaskParameter activityTask) s w in
              match done with
              | Returns (Ok activityResult) =>
                  let '(err, c2) :=
                    RespondTaskComplete client taskToken activityResult c1 in
                  match err with
                  | None => (Returns tt, s', w', c2)
                  | Some e =>
                      let '(_, c3) :=
                        RespondTaskFailed client taskToken e c2 in
                      (Returns tt, s', w', c3)
                  end
              | Returns (Err e) =>
                  let '(_, c2) := RespondTaskFailed client taskToken e c1 in
                  (Returns tt, s', w', c2)
              | Panics => (Panics, s', w', c1)
              | Blocks => (Blocks, s', w', c1)
              end
          end
      end
  end.

(** ** The options of the command line ([main]) *)

(** [strings.HasSuffix] *)
Definition HasSuffix (s suffix : string) : bool :=
  (String.length suffix <=? String.length s)%nat
  && String.eqb (String.substring (String.length s - String.length suffix)
                                  (String.length suffix) s)
                suffix.

(** [strings.TrimSuffix] *)
Definition TrimSuffix (s suffix : string) : string :=
  if HasSuffix s suffix
  then String.substring 0 (String.length s - String.length suffix) s
  else s.

(** The endpoint [main] uses for the option [-e]. *)
Definition configEndpoint (endpoint : string) : string :=
  if String.eqb endpoint "" then "http://simpleworkflow.internal:8773"%string
  else if HasSuffix endpoint "/" then TrimSuffix endpoint "/"
       else endpoint.

(** The domain [main] uses for the option [-d]. *)
Definition configDomain (domain : string) : string :=
  if String.eqb domain "" then "LoadbalancingDomain"%string else domain.

(** The task list [main] uses for the option [-l]. *)
Definition configTaskList (tasklist : string) : string :=
  if String.eqb tasklist "" then "i-00000000"%string else tasklist.

(** ** Durations ([redis_handler.go]) *)

(** An [int64] after an operation that overflows. *)
Definition wrap64 (x : Z) : Z := (x + 2 ^ 63) mod 2 ^ 64 - 2 ^ 63.

(** [time.Second], in nanoseconds. *)
Definition time_Second : Z := 1000000000.

(** [time.Duration(int64(time.Second) * durationSeconds)] *)
Definition seconds (durationSeconds : Z) : Z :=
  wrap64 (time_Second * durationSeconds).

(** ** Further values for the examples *)

(** Two more documents: a snapshot that carries the policy [a], and one
    that carries the policy [c]. *)
Definition policyDocuments : list (string * ActivityDescriptions) :=
  [("<lb><policy name='a'/></lb>"%string,
    mkActivityDescriptions [loadBalancerWith [] [] [policyNamed "a"]]);
   ("<lb><policy name='c'/></lb>"%string,
    mkActivityDescriptions [loadBalancerWith [] [] [policyNamed "c"]])].

Definition extendedDecoder : XmlDecoder :=
  decodeWith (documents ++ policyDocuments).

(** ** Worlds that keep a record, for the statements and the examples *)

(** What a handler made by [NewRedisHandler] is asked to do. *)
Inductive HandlerEvent : Type :=
| Dialed
| Published (name value : string)
| Popped (name : string)
| HandlerClosed.

(** A handler that records its calls, accepts every send and answers every
    receive with [reply]. *)
Definition recordingHandler (reply : result string)
    : ActivityHandler (list HandlerEvent) :=
  mkActivityHandler
    (λ name value w, (None, w ++ [Published name value]))
    (λ name w, (reply, w ++ [Popped name]))
    (λ w, w ++ [HandlerClosed]).

(** A handler that records its calls and refuses every send. *)
Definition unwritableHandler : ActivityHandler (list HandlerEvent) :=
  mkActivityHandler
    (λ name value w,
       (Some "write: broken pipe"%string, w ++ [Published name value]))
    (λ name w, (Err "read: broken pipe"%string, w ++ [Popped name]))
    (λ w, w ++ [HandlerClosed]).

(** A server that is reached, and one that is not. *)
Definition reachedDialer (handler : ActivityHandler (list HandlerEvent))
    : RedisDialer (list HandlerEvent) :=
  λ w, (Ok handler, w ++ [Dialed]).

Definition refusedDialer : RedisDialer (list HandlerEvent) :=
  λ w, (Err "dial tcp :6379: connect: connection refused"%string, w).

(** A workflow service that records the registrations it is asked for and
    answers each by the name of the activity. *)
Definition recordingService (respond : string → option sdk_error)
    : SwfService (list RegisterActivityTypeInput) :=
  λ input log, (respond (InputName input), log ++ [input]).

(** What a workflow client is asked to do. *)
Inductive ClientEvent : Type :=
| Polled
| Completed (token : string) (response : option string)
| Failed (token message : string).

(** A client that records its calls: every poll gives [task], the answer
    that a task is complete gets [completion] and the answer that a task
    has failed is accepted. *)
Definition recordingClient (task : SwfActivityTask)
    (completion : option error) : SwfActivityClient (list ClientEvent) :=
  mkSwfActivityClient
    (λ domain taskList c, ((task, None), c ++ [Polled]))
    (λ token response c, (completion, c ++ [Completed token response]))
    (λ token message c, (None, c ++ [Failed token message])).

(** The four activities of [ActivityChannels]. *)
Definition activityNames : list string :=
  ["LoadBalancingVmActivities.getCloudWatchMetrics"%string;
   "LoadBalancingVmActivities.getInstanceStatus"%string;
   "LoadBalancingVmActivities.setLoadBalancer"%string;
   "LoadBalancingVmActivities.setPolicy"%string].

(** A handler with two names for one channel of capacity 2. *)
Definition pairedHandler : ChannelHandler :=
  NewChannelHandler
    (<["in"%string := chanRef 0]> (<["out"%string := chanRef 0]> ∅)).

Definition pairedStore : ChannelStore :=
  <[0%nat := mkChannel 2 ["first"%string] false]> ∅.
(** * Properties *)

(** ** SHA-1 test vectors *)

Example sha1_abc :
  Sha1.sum_hex "abc" = "a9993e364706816aba3e25717850c26c9cd0d89d"%string.
Proof. vm_compute. reflexivity. Qed.

Example sha1_empty :
  Sha1.sum_hex "" = "da39a3ee5e6b4b0d3255bfef95601890afd80709"%string.
Proof. vm_compute. reflexivity. Qed.

Example sha1_two_blocks :
  Sha1.sum_hex "abcdbcdecdefdefgefghfghighijhijkijkljklmklmnlmnomnopnopq"
  = "84983e441c3bd26ebaae4aa1f95129e5e54670f1"%string.
Proof. vm_compute. reflexivity. Qed.

(** ** The hash pattern is a substring test *)

Section HashPattern.

Lemma scan_prefix need left l :
  (left ≤ length l)%nat →
  Forall (λ c, is_hex c = true) (take left l) →
  scan need left l = true.
Proof.
  revert left. induction l as [|c l IH]; intros [|left] Hlen Hall;
    simpl in *; try reflexivity; try lia.
  apply Forall_cons in Hall as [Hc Hall]. rewrite Hc.
  apply IH; [lia | assumption].
Qed.

Lemma scan_complete need left l :
  (left ≤ need)%nat → hex_run_in need l → scan need left l = true.
Proof.
  revert left. induction l as [|c l IH]; intros left Hle Hrun.
  - destruct Hrun as (pre & run & post & Heq & Hlen & _).
    symmetry in Heq. apply app_eq_nil in Heq as [_ Heq].
    apply app_eq_nil in Heq as [-> _]. simpl in Hlen.
    destruct left; [reflexivity | lia].
  - destruct left as [|left]; [reflexivity|]. simpl.
    destruct Hrun as (pre & run & post & Heq & Hlen & Hall).
    destruct pre as [|p pre]; simpl in Heq.
    + destruct run as [|r run]; [simpl in Hlen; lia|].
      simpl in Heq. injection Heq as -> ->.
      apply Forall_cons in Hall as [Hc Hall]. rewrite Hc.
      simpl in Hlen. apply scan_prefix.
      * rewrite length_app. lia.
      * rewrite take_app_le by lia. apply Forall_take. assumption.
    + injection Heq as -> ->.
      assert (Hrun : hex_run_in need (pre ++ run ++ post))
        by (exists pre, run, post; auto).
      destruct (is_hex p); apply IH; auto; lia.
Qed.

Lemma scan_sound need left l :
  scan need left l = true →
  ((left ≤ length l)%nat ∧ Forall (λ c, is_hex c = true) (take left l))
  ∨ hex_run_in need l.
Proof.
  revert left. induction l as [|c l IH]; intros [|left] Hs; simpl in *;
    try discriminate.
  - left. split; [lia | constructor].
  - left. split; [lia | constructor].
  - destruct (is_hex c) eqn:Hc.
    + apply IH in Hs as [[Hlen Hall] | (pre & run & post & -> & Hlen & Hall)].
      * left. split; [lia | constructor; assumption].
      * right. exists (c :: pre), run, post. auto.
    + apply IH in Hs as [[Hlen Hall] | (pre & run & post & -> & Hlen & Hall)].
      * right. exists [c], (take need l), (drop need l).
        rewrite take_drop. repeat split; auto.
        rewrite length_take. lia.
      * right. exists (c :: pre), run, post. auto.
Qed.

(** The scan decides the substring property. *)
Lemma matchHash_spec value :
  matchHash value = true ↔ contains_hash value.
Proof.
  unfold matchHash, contains_hash. split.
  - intros Hs. apply scan_sound in Hs as [[Hlen Hall] | Hrun]; auto.
    exists [], (take hashRunLength (list_ascii_of_string value)),
      (drop hashRunLength (list_ascii_of_string value)).
    rewrite take_drop. repeat split; auto.
    rewrite length_take. lia.
  - apply scan_complete. lia.
Qed.

Lemma hex_digit_is_hex n : is_hex (Sha1.hex_digit n) = true.
Proof. do 16 (destruct n as [|n]; [reflexivity|]). reflexivity. Qed.

Lemma be_bytes_length n x : length (Sha1.be_bytes n x) = n.
Proof. induction n; simpl; congruence. Qed.

Lemma Sum_length data : length (Sha1.Sum data) = 20%nat.
Proof.
  unfold Sha1.Sum. destruct (Sha1.blocks _ _ _).
  rewrite !length_app, !be_bytes_length. reflexivity.
Qed.

Lemma hex_chars_length bs :
  length (concat (map Sha1.hex_byte bs)) = (2 * length bs)%nat.
Proof. induction bs; simpl; lia. Qed.

Lemma hex_chars_is_hex bs :
  Forall (λ c, is_hex c = true) (concat (map Sha1.hex_byte bs)).
Proof.
  induction bs; simpl; repeat constructor; auto using hex_digit_is_hex.
Qed.

(** A digest always has the shape the pattern looks for. *)
Lemma sum_hex_matches value : matchHash (Sha1.sum_hex value) = true.
Proof.
  apply matchHash_spec. unfold contains_hash, Sha1.sum_hex, Sha1.hex.
  rewrite list_ascii_of_string_of_list_ascii.
  exists [], (concat (map Sha1.hex_byte (Sha1.Sum (Sha1.bytes_of_string value)))), [].
  rewrite app_nil_r. repeat split.
  - rewrite hex_chars_length, Sum_length. reflexivity.
  - apply hex_chars_is_hex.
Qed.

Lemma sum_hex_nonempty value : Sha1.sum_hex value ≠ ""%string.
Proof.
  intros Heq. pose proof (sum_hex_matches value) as Hm.
  rewrite Heq in Hm. discriminate.
Qed.

End HashPattern.

(** ** The activity value cache *)

Section ValueCache.

Context {R : MapRange}.

(** The seconds of a minute never exceed the seconds of a minute by the
    cache time: the test of [cacheMaintain] fails on every entry. *)
Lemma isStale_false timeNow cachedValue : isStale timeNow cachedValue = false.
Proof.
  unfold isStale, Second, ActivityCacheSeconds.
  pose proof (Z.mod_pos_bound timeNow 60 ltac:(lia)).
  pose proof (Z.mod_pos_bound (Time cachedValue) 60 ltac:(lia)).
  rewrite Z.gtb_ltb. apply Z.ltb_ge. lia.
Qed.

Lemma staleKeysOf_empty valueCache timeNow :
  staleKeysOf valueCache timeNow = ∅.
Proof.
  unfold staleKeysOf. generalize (rangeMap CachedValue valueCache).
  intros l. induction l as [|[key cachedValue] l IH]; simpl; [reflexivity|].
  rewrite isStale_false. exact IH.
Qed.

Lemma rangeMap_empty (V : Type) : MapRangeOk R → rangeMap V ∅ = [].
Proof.
  intros Hok. apply Permutation_nil_r. rewrite (Hok V ∅).
  rewrite map_to_list_empty. reflexivity.
Qed.

(** Deleting keys leaves a part of the cache, whatever the range gives. *)
Lemma deleteKeys_subseteq staleKeys valueCache :
  deleteKeys staleKeys valueCache ⊆ valueCache.
Proof.
  unfold deleteKeys. generalize (rangeMap bool staleKeys). intros l.
  revert valueCache. induction l as [|[key b] l IH]; intros valueCache; simpl.
  - reflexivity.
  - etransitivity; [apply IH | apply delete_subseteq].
Qed.

(** No sweep removes anything. *)
Lemma cacheMaintain_id caches activity timeNow :
  MapRangeOk R → cacheMaintain caches activity timeNow = caches.
Proof.
  intros Hok. unfold cacheMaintain.
  destruct (caches !! activity) as [valueCache|] eqn:Hc; [|reflexivity].
  rewrite staleKeysOf_empty. unfold deleteKeys.
  rewrite rangeMap_empty by assumption. simpl.
  apply insert_id. assumption.
Qed.

(** A literal value is stored under its digest and returned. *)
Lemma activityValueCache_literal caches activity valueCache value timeNow :
  caches !! activity = Some valueCache →
  matchHash value = false →
  value ≠ ""%string →
  activityValueCache caches activity value timeNow
  = Some (value,
          cacheMaintain
            (<[activity := <[Sha1.sum_hex value := mkCachedValue timeNow value]>
                             valueCache]> caches)
            activity timeNow).
Proof.
  intros Hc Hm Hne. unfold activityValueCache, cacheAssign.
  rewrite Hm, Hc. rewrite decide_True by assumption. reflexivity.
Qed.

(** A value with the shape of a hash is looked up: the stored value of the
    key, or the empty string. *)
Lemma activityValueCache_lookup caches activity valueCache value timeNow :
  caches !! activity = Some valueCache →
  matchHash value = true →
  ∃ caches',
    activityValueCache caches activity value timeNow
    = Some (match valueCache !! value with
            | Some cachedValue => Value cachedValue
            | None => ""%string
            end, cacheMaintain caches' activity timeNow)
    ∧ caches' !! activity
      = Some (match valueCache !! value with
              | Some cachedValue =>
                  if decide (Value cachedValue ≠ ""%string)
                  then <[value := mkCachedValue timeNow (Value cachedValue)]>
                         valueCache
                  else valueCache
              | None => valueCache
              end)
    ∧ ∀ other, other ≠ activity → caches' !! other = caches !! other.
Proof.
  intros Hc Hm. unfold activityValueCache, cacheAssign.
  rewrite Hm, Hc. simpl.
  destruct (valueCache !! value) as [cachedValue|] eqn:Hv.
  - destruct (decide (Value cachedValue ≠ ""%string)) as [Hne|He].
    + eexists. split; [reflexivity|]. split.
      * apply lookup_insert_eq.
      * intros other Hother. apply lookup_insert_ne. congruence.
    + exists caches. auto.
  - rewrite decide_False by (intros Hne; apply Hne; reflexivity).
    exists caches. auto.
Qed.

Lemma cacheMaintain_lookup_ne caches activity other timeNow :
  other ≠ activity →
  cacheMaintain caches activity timeNow !! other = caches !! other.
Proof.
  intros Hne. unfold cacheMaintain.
  destruct (caches !! activity); [|reflexivity].
  apply lookup_insert_ne. congruence.
Qed.

Lemma cacheMaintain_keyed caches activity timeNow :
  keyed_by_digest caches →
  keyed_by_digest (cacheMaintain caches activity timeNow).
Proof.
  intros Hinv a valueCache key cachedValue Ha Hk.
  destruct (decide (a = activity)) as [->|Hne].
  - unfold cacheMaintain in Ha.
    destruct (caches !! activity) as [old|] eqn:Hold.
    + rewrite lookup_insert_eq in Ha. injection Ha as <-.
      eapply Hinv; [exact Hold|].
      eapply lookup_weaken; [exact Hk | apply deleteKeys_subseteq].
    + rewrite Hold in Ha. discriminate.
  - rewrite cacheMaintain_lookup_ne in Ha by assumption.
    eapply Hinv; eassumption.
Qed.

Lemma cacheAssign_keyed caches activity value timeNow caches' :
  keyed_by_digest caches →
  cacheAssign caches activity (Sha1.sum_hex value)
    (mkCachedValue timeNow value) = Some caches' →
  keyed_by_digest caches'.
Proof.
  intros Hinv Has a valueCache key cachedValue Ha Hk.
  unfold cacheAssign in Has.
  destruct (caches !! activity) as [old|] eqn:Hold; [|discriminate].
  injection Has as <-.
  destruct (decide (a = activity)) as [->|Hne].
  - rewrite lookup_insert_eq in Ha. injection Ha as <-.
    destruct (decide (key = Sha1.sum_hex value)) as [->|Hk'].
    + rewrite lookup_insert_eq in Hk. injection Hk as <-. reflexivity.
    + rewrite lookup_insert_ne in Hk by congruence.
      eapply Hinv; eassumption.
  - rewrite lookup_insert_ne in Ha by congruence.
    eapply Hinv; eassumption.
Qed.

(** Each call of [activityValueCache] keeps the keys the digests of their
    values: a literal value goes under its digest, a hit writes the value
    found back under the key it was found at, a miss writes nothing. *)
Lemma activityValueCache_keyed caches activity value timeNow result caches' :
  keyed_by_digest caches →
  activityValueCache caches activity value timeNow = Some (result, caches') →
  keyed_by_digest caches'.
Proof.
  intros Hinv Hcall. unfold activityValueCache in Hcall.
  destruct (matchHash value) eqn:Hm.
  - destruct (caches !! activity) as [valueCache|] eqn:Hc; simpl in Hcall.
    + destruct (valueCache !! value) as [cachedValue|] eqn:Hv.
      * pose proof (Hinv _ _ _ _ Hc Hv) as Hkey.
        destruct (decide (Value cachedValue ≠ ""%string)).
        -- destruct (cacheAssign _ _ _ _) as [caches1|] eqn:Has;
             [|discriminate].
           injection Hcall as _ <-. apply cacheMaintain_keyed.
           rewrite Hkey in Has. eapply cacheAssign_keyed; eassumption.
        -- injection Hcall as _ <-. apply cacheMaintain_keyed, Hinv.
      * rewrite decide_False in Hcall by (intros Hne; apply Hne; reflexivity).
        injection Hcall as _ <-. apply cacheMaintain_keyed, Hinv.
    + injection Hcall as _ <-. apply cacheMaintain_keyed, Hinv.
  - destruct (decide (value ≠ ""%string)).
    + destruct (cacheAssign _ _ _ _) as [caches1|] eqn:Has; [|discriminate].
      injection Hcall as _ <-. apply cacheMaintain_keyed.
      eapply cacheAssign_keyed; eassumption.
    + injection Hcall as _ <-. apply cacheMaintain_keyed, Hinv.
Qed.

End ValueCache.

Lemma initial_keyed : keyed_by_digest ActivityValuesBySha1.
Proof.
  intros a valueCache key cachedValue Ha Hk. unfold ActivityValuesBySha1 in Ha.
  apply lookup_insert_Some in Ha as [[_ <-] | [_ Ha]].
  - rewrite lookup_empty in Hk. discriminate.
  - apply lookup_insert_Some in Ha as [[_ <-] | [_ Ha]].
    + rewrite lookup_empty in Hk. discriminate.
    + rewrite lookup_empty in Ha. discriminate.
Qed.

Lemma reachable_keyed caches : reachable caches → keyed_by_digest caches.
Proof.
  induction 1 as [| R caches activity value timeNow result caches' _ _ IH Hcall
                  | R caches activity timeNow _ _ IH].
  - apply initial_keyed.
  - eapply activityValueCache_keyed; eassumption.
  - apply cacheMaintain_keyed, IH.
Qed.

(** The store of [abc] for [setPolicy] at time 0, from the initial caches. *)
Lemma agedCaches_stored :
  activityValueCache (H := rangeForward) ActivityValuesBySha1
    setPolicyActivity "abc" 0 = Some ("abc"%string, agedCaches).
Proof.
  rewrite (activityValueCache_literal (R := rangeForward) _ _ ∅).
  - rewrite cacheMaintain_id by (intros V m; reflexivity). reflexivity.
  - unfold ActivityValuesBySha1, setPolicyActivity.
    rewrite lookup_insert_ne by discriminate. apply lookup_insert_eq.
  - vm_compute. reflexivity.
  - discriminate.
Qed.

(** ** The handlers *)

Lemma rangeForward_ok : MapRangeOk rangeForward.
Proof. intros V m. reflexivity. Qed.

Lemma rangeBackward_ok : MapRangeOk rangeBackward.
Proof.
  intros V m. unfold rangeMap, rangeBackward. apply reverse_Permutation.
Qed.

(** The secondaries of a composite handler are sent to in turn: the record
    grows by one send for each. *)
Lemma sendSecondaries_recorded {W : Type}
    (secondaries : list (ActivityHandler W)) (from : nat)
    (name value : string) (w : W) (log : SendLog) :
  sendSecondaries (recordedFrom from secondaries) name value (w, log)
  = (sendSecondaries secondaries name value w,
     log ++ sendsFrom from (length secondaries) name value).
Proof.
  revert from w log.
  induction secondaries as [|h rest IH]; intros from w log; simpl.
  - rewrite app_nil_r. reflexivity.
  - destruct (Send h name value w) as [err w'].
    rewrite IH, <- app_assoc. reflexivity.
Qed.

(** *** The names a load balancer refers to *)

Lemma addPolicyNames_app (a b : list string) (names : gmap string string) :
  addPolicyNames (a ++ b) names = addPolicyNames b (addPolicyNames a names).
Proof. apply foldl_app. Qed.

Lemma addPolicyNames_concat {A : Type} (f : A → list string) (xs : list A)
    (names : gmap string string) :
  foldl (λ names x, addPolicyNames (f x) names) names xs
  = addPolicyNames (concat (map f xs)) names.
Proof.
  revert names. induction xs as [|x xs IH]; intros names; simpl.
  - reflexivity.
  - rewrite addPolicyNames_app. apply IH.
Qed.

(** The two loops over the listeners and the backend servers are one loop
    over the names referred to. *)
Lemma activePolicyNamesOf_referenced (loadBalancer : ActivityLoadBalancer) :
  activePolicyNamesOf loadBalancer
  = addPolicyNames (referencedNames loadBalancer) ∅.
Proof.
  unfold activePolicyNamesOf, referencedNames.
  rewrite addPolicyNames_app.
  rewrite (addPolicyNames_concat PolicyNames).
  rewrite (addPolicyNames_concat BackendPolicyNames).
  reflexivity.
Qed.

Lemma addPolicyNames_lookup (policyNames : list string)
    (names : gmap string string) (n v : string) :
  addPolicyNames policyNames names !! n = Some v
  ↔ (n ∈ policyNames ∧ v = n) ∨ (¬ n ∈ policyNames ∧ names !! n = Some v).
Proof.
  revert names. induction policyNames as [|x l IH]; intros names.
  - simpl. split.
    + intros Hn. right. split; [apply not_elem_of_nil | exact Hn].
    + intros [[Hn _] | [_ Hn]]; [|exact Hn].
      exfalso. eapply not_elem_of_nil, Hn.
  - change (addPolicyNames (x :: l) names)
      with (addPolicyNames l (<[x := x]> names)).
    rewrite IH, elem_of_cons.
    destruct (decide (n = x)) as [->|Hne].
    + rewrite lookup_insert_eq. split.
      * intros [[_ ->] | [_ Hv]]; left; [auto|].
        injection Hv as <-. auto.
      * intros [[_ ->] | [Hx _]]; [|tauto].
        destruct (decide (x ∈ l)); [left | right]; auto.
    + rewrite lookup_insert_ne by congruence. split.
      * intros [[Hn ->] | [Hn Hv]]; [left | right]; tauto.
      * intros [[[Hn | Hn] ->] | [Hn Hv]]; [congruence | left | right];
          tauto.
Qed.

(** [activePolicyNames] maps each name referred to to itself, and has no
    other key. *)
Lemma activePolicyNamesOf_lookup (loadBalancer : ActivityLoadBalancer)
    (n v : string) :
  activePolicyNamesOf loadBalancer !! n = Some v
  ↔ n ∈ referencedNames loadBalancer ∧ v = n.
Proof.
  rewrite activePolicyNamesOf_referenced, addPolicyNames_lookup.
  rewrite lookup_empty. split.
  - intros [Hn | [_ Hn]]; [exact Hn | discriminate].
  - intros Hn. left. exact Hn.
Qed.

(** *** The first occurrences of a list of names *)

Lemma firstOccurrences_from (names seen : list string) :
  NoDup seen →
  NoDup (foldl (λ seen name,
                  if decide (name ∈ seen) then seen else seen ++ [name])
               seen names)
  ∧ ∀ x, x ∈ foldl (λ seen name,
                      if decide (name ∈ seen) then seen else seen ++ [name])
                   seen names
         ↔ x ∈ seen ∨ x ∈ names.
Proof.
  revert seen. induction names as [|name names IH]; intros seen Hseen; simpl.
  - split; [exact Hseen|]. intros x. rewrite elem_of_nil. tauto.
  - destruct (decide (name ∈ seen)) as [Hin|Hout].
    + destruct (IH seen Hseen) as [Hnd Hel]. split; [exact Hnd|].
      intros x. rewrite Hel, elem_of_cons. split.
      * tauto.
      * intros [Hx | [-> | Hx]]; auto.
    + assert (Hseen' : NoDup (seen ++ [name])).
      { apply NoDup_app. split; [exact Hseen|]. split.
        - intros x Hx Hx'. apply list_elem_of_singleton in Hx'. congruence.
        - apply NoDup_singleton. }
      destruct (IH _ Hseen') as [Hnd Hel]. split; [exact Hnd|].
      intros x. rewrite Hel, elem_of_app, list_elem_of_singleton, elem_of_cons.
      tauto.
Qed.

Lemma firstOccurrences_NoDup (names : list string) :
  NoDup (firstOccurrences names).
Proof. apply firstOccurrences_from, NoDup_nil_2. Qed.

Lemma firstOccurrences_elem (names : list string) (x : string) :
  x ∈ firstOccurrences names ↔ x ∈ names.
Proof.
  unfold firstOccurrences.
  rewrite (proj2 (firstOccurrences_from names [] (NoDup_nil_2)) x).
  rewrite elem_of_nil. tauto.
Qed.

(** *** The policy registry *)

Section Registry.

Context {R : MapRange}.
Hypothesis range_ok : MapRangeOk R.

Lemma rangeMap_elem {V : Type} (m : gmap string V) (k : string) (v : V) :
  (k, v) ∈ rangeMap V m ↔ m !! k = Some v.
Proof. rewrite (range_ok V m). apply elem_of_map_to_list. Qed.

Lemma rangeMap_NoDup_fst {V : Type} (m : gmap string V) :
  NoDup (map fst (rangeMap V m)).
Proof.
  change (NoDup ((rangeMap V m).*1)). rewrite (range_ok V m).
  apply NoDup_fst_map_to_list.
Qed.

(** The names the range of [activePolicyNames] presents. *)
Lemma rangedNames_fst (loadBalancer : ActivityLoadBalancer) :
  map snd (rangeMap _ (activePolicyNamesOf loadBalancer))
  = map fst (rangeMap _ (activePolicyNamesOf loadBalancer)).
Proof.
  assert (Hentries : ∀ k v,
            (k, v) ∈ rangeMap _ (activePolicyNamesOf loadBalancer) → v = k).
  { intros k v Hkv. apply rangeMap_elem in Hkv.
    apply activePolicyNamesOf_lookup in Hkv. tauto. }
  revert Hentries.
  generalize (rangeMap _ (activePolicyNamesOf loadBalancer)).
  intros l. induction l as [|[k v] l IH]; intros Hentries; simpl.
  - reflexivity.
  - rewrite (Hentries k v) by apply list_elem_of_here.
    f_equal. apply IH. intros k' v' Hkv. apply Hentries.
    apply list_elem_of_further, Hkv.
Qed.

Lemma rangedNames_NoDup (loadBalancer : ActivityLoadBalancer) :
  NoDup (map snd (rangeMap _ (activePolicyNamesOf loadBalancer))).
Proof. rewrite rangedNames_fst. apply rangeMap_NoDup_fst. Qed.

Lemma rangedNames_elem (loadBalancer : ActivityLoadBalancer) (n : string) :
  n ∈ map snd (rangeMap _ (activePolicyNamesOf loadBalancer))
  ↔ n ∈ referencedNames loadBalancer.
Proof.
  rewrite rangedNames_fst. split.
  - intros Hn. apply list_elem_of_fmap in Hn as [[k v] [-> Hkv]].
    apply rangeMap_elem, activePolicyNamesOf_lookup in Hkv. tauto.
  - intros Hn. apply list_elem_of_fmap. exists (n, n). split; [reflexivity|].
    apply rangeMap_elem, activePolicyNamesOf_lookup. tauto.
Qed.

(** Each name referred to is presented once: the names of the range are
    the first occurrences, in some order. *)
Lemma rangedNames_firstOccurrences (loadBalancer : ActivityLoadBalancer) :
  map snd (rangeMap _ (activePolicyNamesOf loadBalancer))
  ≡ₚ firstOccurrences (referencedNames loadBalancer).
Proof.
  apply NoDup_Permutation.
  - apply rangedNames_NoDup.
  - apply firstOccurrences_NoDup.
  - intros n. rewrite rangedNames_elem, firstOccurrences_elem. reflexivity.
Qed.

(** [RetainOnly] keeps the policies whose names are keys of [retainKeys]
    and deletes the others. *)
Lemma deleteAll_lookup (stalePolicyNames : list string)
    (policies : gmap string ActivityPolicy) (n : string) :
  foldl (λ policies' policyName, delete policyName policies')
        policies stalePolicyNames !! n
  = if decide (n ∈ stalePolicyNames) then None else policies !! n.
Proof.
  revert policies.
  induction stalePolicyNames as [|x l IH]; intros policies; cbn [foldl].
  - destruct (decide (n ∈ [])) as [Hin|_]; [|reflexivity].
    apply elem_of_nil in Hin. destruct Hin.
  - rewrite IH. destruct (decide (n ∈ x :: l)) as [Hin|Hout].
    + destruct (decide (n ∈ l)) as [_|Hl]; [reflexivity|].
      apply elem_of_cons in Hin as [->|Hin]; [|tauto].
      apply lookup_delete_eq.
    + rewrite elem_of_cons in Hout.
      destruct (decide (n ∈ l)) as [Hl|_]; [tauto|].
      apply lookup_delete_ne. intros ->. tauto.
Qed.

Lemma stalePolicyNamesOf_elem (retainKeys : gmap string string)
    (policies : gmap string ActivityPolicy) (n : string) :
  n ∈ stalePolicyNamesOf retainKeys policies
  ↔ is_Some (policies !! n) ∧ retainKeys !! n = None.
Proof.
  assert (Hloop : ∀ (l : list (string * ActivityPolicy)) acc,
    n ∈ foldl (λ stalePolicyNames '(policyName, _),
                 match retainKeys !! policyName with
                 | Some _ => stalePolicyNames
                 | None => stalePolicyNames ++ [policyName]
                 end) acc l
    ↔ n ∈ acc ∨ (n ∈ map fst l ∧ retainKeys !! n = None)).
  { intros l. induction l as [|[k d] l IH]; intros acc; simpl.
    - rewrite elem_of_nil. tauto.
    - rewrite IH, elem_of_cons.
      destruct (retainKeys !! k) as [v|] eqn:Hk.
      + split; [tauto|]. intros [Hn | [[-> | Hn] Hnone]]; [tauto| |tauto].
        congruence.
      + rewrite elem_of_app, list_elem_of_singleton. split.
        * intros [[Hn | ->] | Hn]; tauto.
        * intros [Hn | [[-> | Hn] Hnone]]; tauto. }
  unfold stalePolicyNamesOf. rewrite Hloop, elem_of_nil.
  split.
  - intros [[] | [Hn Hnone]]. split; [|exact Hnone].
    apply list_elem_of_fmap in Hn as [[k d] [-> Hkd]].
    apply rangeMap_elem in Hkd. exists d. exact Hkd.
  - intros [[d Hd] Hnone]. right. split; [|exact Hnone].
    apply list_elem_of_fmap. exists (n, d). split; [reflexivity|].
    apply rangeMap_elem, Hd.
Qed.

Lemma RetainOnly_lookup (retainKeys : gmap string string)
    (policies : gmap string ActivityPolicy) (n : string) :
  RetainOnly retainKeys policies !! n
  = match retainKeys !! n with
    | Some _ => policies !! n
    | None => None
    end.
Proof.
  unfold RetainOnly. rewrite deleteAll_lookup.
  destruct (decide (n ∈ stalePolicyNamesOf retainKeys policies)) as [Hin|Hout].
  - apply stalePolicyNamesOf_elem in Hin as [_ ->]. reflexivity.
  - destruct (retainKeys !! n) as [v|] eqn:Hk; [reflexivity|].
    destruct (policies !! n) as [d|] eqn:Hd; [|reflexivity].
    exfalso. apply Hout, stalePolicyNamesOf_elem. split; [|exact Hk].
    exists d. exact Hd.
Qed.

(** After the collection of [HandleLoadBalancer] the registry holds the
    policies the load balancer refers to, and no other. *)
Lemma RetainOnly_referenced (loadBalancer : ActivityLoadBalancer)
    (policies : gmap string ActivityPolicy) :
  RetainOnly (activePolicyNamesOf loadBalancer) policies
  = filter (λ entry, entry.1 ∈ referencedNames loadBalancer) policies.
Proof.
  apply map_eq. intros n. apply option_eq. intros d.
  rewrite RetainOnly_lookup, map_lookup_filter_Some. simpl.
  destruct (activePolicyNamesOf loadBalancer !! n) as [v|] eqn:Hk.
  - apply activePolicyNamesOf_lookup in Hk. tauto.
  - split; [discriminate|]. intros [_ Hn]. exfalso.
    assert (Hsome : activePolicyNamesOf loadBalancer !! n = Some n).
    { apply activePolicyNamesOf_lookup. tauto. }
    congruence.
Qed.

End Registry.

(** *** The resolution of the names *)

Lemma appendPolicies_registered (policies : gmap string ActivityPolicy)
    (policyNames : list string) (descriptions : list ActivityPolicy) :
  Forall (λ n, is_Some (policies !! n)) policyNames →
  ∃ found,
    appendPolicies policies policyNames descriptions
    = Ok (descriptions ++ found)
    ∧ Forall2 (λ n d, policies !! n = Some d) policyNames found.
Proof.
  revert descriptions.
  induction policyNames as [|n l IH]; intros descriptions Hall; simpl.
  - exists []. rewrite app_nil_r. split; [reflexivity | constructor].
  - apply Forall_cons in Hall as [[d Hd] Hall]. rewrite Hd.
    destruct (IH (descriptions ++ [d]) Hall) as (found & Hcall & Hfound).
    exists (d :: found). rewrite Hcall, <- app_assoc.
    split; [reflexivity|]. constructor; assumption.
Qed.

Lemma appendPolicies_missing (policies : gmap string ActivityPolicy)
    (policyNames : list string) (descriptions : list ActivityPolicy) :
  Exists (λ n, policies !! n = None) policyNames →
  ∃ missing,
    missing ∈ policyNames
    ∧ policies !! missing = None
    ∧ appendPolicies policies policyNames descriptions
      = Err ("policy not found " +:+ missing).
Proof.
  revert descriptions.
  induction policyNames as [|n l IH]; intros descriptions Hex; simpl.
  - apply Exists_nil in Hex. destruct Hex.
  - destruct (policies !! n) as [d|] eqn:Hd.
    + apply Exists_cons in Hex as [Hn | Hex]; [congruence|].
      destruct (IH (descriptions ++ [d]) Hex) as (missing & Hin & Hm & Hcall).
      exists missing. split; [apply list_elem_of_further, Hin|].
      split; assumption.
    + exists n. split; [apply list_elem_of_here|]. split; [exact Hd|].
      reflexivity.
Qed.

(** [WriteConfiguration] reads and writes files and leaves the registry
    alone. *)
Lemma WriteConfiguration_Policies {R : MapRange} {C : ConfigParser}
    (handler : HaproxyConfigurationHandler)
    (loadBalancer : ActivityLoadBalancer) (w : World) :
  Policies (snd (WriteConfiguration handler loadBalancer w)) = Policies w.
Proof.
  unfold WriteConfiguration.
  destruct (TemplateSupplier handler tt) as [configuration|e];
    [|reflexivity].
  destruct (HaproxyConfigurationString configuration) as [p|e];
    [|reflexivity].
  destruct (UpdateConfiguration p loadBalancer) as [p'|e]; reflexivity.
Qed.

(** Every call of [WriteConfiguration] begins with the call of the template
    supplier. *)
Lemma WriteConfiguration_Effects {R : MapRange} {C : ConfigParser}
    (handler : HaproxyConfigurationHandler)
    (loadBalancer : ActivityLoadBalancer) (w : World) :
  ∃ later,
    Effects (snd (WriteConfiguration handler loadBalancer w))
    = Effects w ++ TemplateSupplied :: later.
Proof.
  unfold WriteConfiguration.
  destruct (TemplateSupplier handler tt) as [configuration|e];
    [|exists []; reflexivity].
  destruct (HaproxyConfigurationString configuration) as [p|e];
    [|exists []; reflexivity].
  destruct (UpdateConfiguration p loadBalancer) as [p'|e];
    [|exists []; reflexivity].
  eexists. simpl. rewrite <- app_assoc. reflexivity.
Qed.

(** ** Strings *)

Lemma list_ascii_length (s : string) :
  length (list_ascii_of_string s) = String.length s.
Proof. induction s as [|c s IH]; simpl; congruence. Qed.

(** ** The handlers, further *)

(** A list without duplicates whose elements all are [n] and which holds
    [n] is the list of [n] alone. *)
Lemma NoDup_all_equal (l : list string) (n : string) :
  NoDup l → n ∈ l → Forall (λ x, x = n) l → l = [n].
Proof.
  intros Hnd Hin Hall. destruct l as [|x l].
  - apply elem_of_nil in Hin. destruct Hin.
  - apply Forall_cons in Hall as [-> Hall].
    apply NoDup_cons in Hnd as [Hx _].
    destruct l as [|y l]; [reflexivity|].
    apply Forall_cons in Hall as [-> _].
    exfalso. apply Hx, list_elem_of_here.
Qed.

(** A load balancer that refers to one policy only presents that name to
    the third loop of [HandleLoadBalancer], once. *)
Lemma rangedNames_single {R : MapRange} (loadBalancer : ActivityLoadBalancer)
    (n : string) :
  MapRangeOk R →
  n ∈ referencedNames loadBalancer →
  Forall (λ x, x = n) (referencedNames loadBalancer) →
  map snd (rangeMap _ (activePolicyNamesOf loadBalancer)) = [n].
Proof.
  intros Hok Hin Hall. apply NoDup_all_equal.
  - apply (rangedNames_NoDup Hok).
  - apply (rangedNames_elem Hok), Hin.
  - apply Forall_forall. intros x Hx. apply (rangedNames_elem Hok) in Hx.
    rewrite Forall_forall in Hall. apply Hall, Hx.
Qed.

Lemma escapeSpaces_not_space (c : ascii) (rest : string) :
  Ascii.eqb c " " = false →
  unescapeSpaces (String c (escapeSpaces rest))
  = String c (unescapeSpaces (escapeSpaces rest)).
Proof.
  intros Hc. destruct rest as [|c' rest]; [reflexivity|].
  cbn [escapeSpaces]. destruct (Ascii.eqb c' " ") eqn:Hc'.
  - cbn [unescapeSpaces].
    destruct (Ascii.eqb c "\"); reflexivity.
  - cbn [unescapeSpaces]. rewrite Hc', andb_false_r. reflexivity.
Qed.

(** The registry that has just taken a policy, reduced to the names of a
    load balancer that refers to that policy alone. *)
Lemma filter_referenced_single (names : list string) (n : string)
    (activityPolicy : ActivityPolicy) (policies : gmap string ActivityPolicy) :
  n ∈ names →
  Forall (λ x, x = n) names →
  filter (λ entry : string * ActivityPolicy, entry.1 ∈ names)
         (<[n := activityPolicy]> policies)
  = {[n := activityPolicy]}.
Proof.
  intros Hin Hall. rewrite Forall_forall in Hall.
  apply map_eq. intros k. apply option_eq. intros d.
  rewrite map_lookup_filter_Some. simpl.
  destruct (decide (k = n)) as [->|Hne].
  - rewrite lookup_insert_eq, lookup_singleton_eq. tauto.
  - rewrite lookup_insert_ne by congruence.
    rewrite lookup_singleton_ne by congruence.
    split; [|discriminate]. intros [_ Hk]. apply Hall in Hk. congruence.
Qed.

(** ** Activities *)

(** A call of [activityValueCache] that returns keeps the activities that
    have a cache. *)
Lemma activityValueCache_activities {R : MapRange}
    (caches caches' : ValueCaches) (activity value result : string)
    (timeNow : time_Time) (other : string) :
  activityValueCache caches activity value timeNow = Some (result, caches') →
  is_Some (caches !! other) → is_Some (caches' !! other).
Proof.
  intros Hcall Hother.
  assert (Hsweep : ∀ c, is_Some (c !! other) →
            is_Some (cacheMaintain c activity timeNow !! other)).
  { intros c Hc. unfold cacheMaintain.
    destruct (c !! activity) as [valueCache|] eqn:Ha; [|exact Hc].
    destruct (decide (other = activity)) as [->|Hne].
    - rewrite lookup_insert_eq. eauto.
    - rewrite lookup_insert_ne by congruence. exact Hc. }
  unfold activityValueCache in Hcall.
  set (pair := if matchHash value then _ else _) in Hcall.
  destruct pair as [valueSha1 value'].
  destruct (decide (value' ≠ ""%string)) as [Hne|He].
  - unfold cacheAssign in Hcall.
    destruct (caches !! activity) as [old|] eqn:Hold; [|discriminate].
    injection Hcall as _ <-. apply Hsweep.
    destruct (decide (other = activity)) as [->|Hdiff].
    + rewrite lookup_insert_eq. eauto.
    + rewrite lookup_insert_ne by congruence. exact Hother.
  - injection Hcall as _ <-. apply Hsweep, Hother.
Qed.

(** A call of [activityValueCache] for an activity with a cache returns. *)
Lemma activityValueCache_returns {R : MapRange} (caches : ValueCaches)
    (activity value : string) (timeNow : time_Time) :
  is_Some (caches !! activity) →
  is_Some (activityValueCache caches activity value timeNow).
Proof.
  intros [valueCache Hc]. unfold activityValueCache.
  set (pair := if matchHash value then _ else _).
  destruct pair as [valueSha1 value'].
  destruct (decide (value' ≠ ""%string)); [|eauto].
  unfold cacheAssign. rewrite Hc. eauto.
Qed.

Lemma initial_trackable : trackable initialActivityState.
Proof.
  intros activity [lastValue Hlast]. simpl in Hlast.
  unfold ActivityLastValues in Hlast.
  apply lookup_insert_Some in Hlast as [[<- _] | [_ Hlast]].
  - split; [eexists; apply lookup_insert_eq|].
    eexists. vm_compute. reflexivity.
  - apply lookup_insert_Some in Hlast as [[<- _] | [_ Hlast]].
    + split; [|eexists; vm_compute; reflexivity].
      simpl. unfold ActivityValuesBySha1.
      rewrite lookup_insert_ne by discriminate.
      eexists. apply lookup_insert_eq.
    + rewrite lookup_empty in Hlast. discriminate.
Qed.

Lemma trackActivityValue_trackable {R : MapRange} (runDir : string)
    (timeNow : time_Time) (activity value : string) (s : ActivityState) :
  trackable s →
  trackable (snd (trackActivityValue runDir timeNow activity value s)).
Proof.
  intros Hinv. unfold trackActivityValue.
  destruct (LastValues s !! activity) as [lastValue|] eqn:Hlast;
    [|exact Hinv].
  destruct (activityValueCache (ValuesBySha1 s) activity value timeNow)
    as [[value' caches']|] eqn:Hcall; [|exact Hinv].
  assert (Hcaches : ∀ a, is_Some (ValuesBySha1 s !! a) →
                         is_Some (caches' !! a)).
  { intros a. eapply activityValueCache_activities. exact Hcall. }
  assert (Hkeys : ∀ a, is_Some (<[activity := value']> (LastValues s) !! a) →
                       is_Some (LastValues s !! a)).
  { intros a. destruct (decide (a = activity)) as [->|Hne].
    - intros _. eauto.
    - rewrite lookup_insert_ne by congruence. tauto. }
  destruct (decide (value' ≠ lastValue)).
  - destruct (sliceFrom 4 (mapGet ActivityChannels activity)); simpl;
      intros a Ha; apply Hkeys, Hinv in Ha as [Hc Hs]; auto.
  - simpl. intros a Ha. apply Hinv in Ha as [Hc Hs]. auto.
Qed.

Lemma reachable_trackable (s : ActivityState) :
  activity_reachable s → trackable s.
Proof.
  induction 1 as [| R runDir timeNow activity value s _ _ IH].
  - apply initial_trackable.
  - apply trackActivityValue_trackable, IH.
Qed.

(** The names of [ActivityChannels], as a range presents them. *)
Lemma ActivityChannels_names :
  map fst (map_to_list ActivityChannels) ≡ₚ activityNames.
Proof.
  let names := eval vm_compute in (map fst (map_to_list ActivityChannels)) in
  assert (Hlist : map fst (map_to_list ActivityChannels) = names)
    by (vm_compute; reflexivity).
  rewrite Hlist. unfold activityNames.
  apply NoDup_Permutation.
  - repeat (apply NoDup_cons; split;
            [rewrite ?elem_of_cons, elem_of_nil;
             intros Hin; repeat destruct Hin as [Hin|Hin];
             try discriminate Hin; exact Hin|]).
    apply NoDup_nil_2.
  - repeat (apply NoDup_cons; split;
            [rewrite ?elem_of_cons, elem_of_nil;
             intros Hin; repeat destruct Hin as [Hin|Hin];
             try discriminate Hin; exact Hin|]).
    apply NoDup_nil_2.
  - intros name. rewrite !elem_of_cons, !elem_of_nil. tauto.
Qed.

(** ** The workflow client and the options *)

Lemma registerEach_cons (respond : string → option sdk_error)
    (domain : option string) (name : string) (rest : list string)
    (log : list RegisterActivityTypeInput) :
  registerEach (H := recordingService respond) domain (name :: rest) log
  = match respond name ≫= registrationError name with
    | None =>
        registerEach (H := recordingService respond) domain rest
          (log ++ [registerInput domain name])
    | Some e => (Some e, log ++ [registerInput domain name])
    end.
Proof. reflexivity. Qed.

(** The registrations of a service that records them: when every answer is
    a success or says that the type exists, each name is registered, in
    turn. *)
Lemma registerEach_tolerant (respond : string → option sdk_error)
    (domain : option string) (names : list string)
    (log : list RegisterActivityTypeInput) :
  Forall (λ name, respond name ≫= registrationError name = None) names →
  registerEach (H := recordingService respond) domain names log
  = (None, log ++ map (registerInput domain) names).
Proof.
  revert log. induction names as [|name names IH]; intros log Hall.
  - simpl. rewrite app_nil_r. reflexivity.
  - apply Forall_cons in Hall as [Hname Hall].
    rewrite registerEach_cons, Hname, (IH _ Hall), <- app_assoc.
    reflexivity.
Qed.

(** When some answer is an error that is returned, the loop ends at the
    first such answer. *)
Lemma registerEach_refused (respond : string → option sdk_error)
    (domain : option string) (names : list string)
    (log : list RegisterActivityTypeInput) :
  Exists (λ name, is_Some (respond name ≫= registrationError name)) names →
  ∃ before activityName after message,
    names = before ++ activityName :: after
    ∧ Forall (λ name, respond name ≫= registrationError name = None) before
    ∧ respond activityName ≫= registrationError activityName = Some message
    ∧ registerEach (H := recordingService respond) domain names log
      = (Some message,
         log ++ map (registerInput domain) (before ++ [activityName])).
Proof.
  revert log. induction names as [|name names IH]; intros log Hex.
  - apply Exists_nil in Hex. destruct Hex.
  - destruct (respond name ≫= registrationError name) as [message|] eqn:Hname.
    + exists [], name, names, message. repeat split; auto.
      rewrite registerEach_cons, Hname. reflexivity.
    + apply Exists_cons in Hex as [[m Hm] | Hex]; [congruence|].
      destruct (IH (log ++ [registerInput domain name]) Hex)
        as (before & activityName & after & message & -> & Hbefore & Hm
            & Hcall).
      exists (name :: before), activityName, after, message.
      repeat split; auto.
      change ((name :: before) ++ activityName :: after)
        with (name :: before ++ activityName :: after).
      rewrite registerEach_cons, Hname, Hcall, <- app_assoc. reflexivity.
Qed.

Lemma length_append (a b : string) :
  String.length (a +:+ b) = (String.length a + String.length b)%nat.
Proof.
  induction a as [|c a IH]; simpl; [reflexivity | rewrite IH; reflexivity].
Qed.

Lemma substring_append_prefix (a b : string) :
  String.substring 0 (String.length a) (a +:+ b) = a.
Proof.
  induction a as [|c a IH]; simpl;
    [destruct b; reflexivity | rewrite IH; reflexivity].
Qed.

Lemma substring_all (b : string) :
  String.substring 0 (String.length b) b = b.
Proof.
  induction b as [|c b IH]; simpl; [reflexivity | rewrite IH; reflexivity].
Qed.

Lemma substring_append_suffix (a b : string) :
  String.substring (String.length a) (String.length b) (a +:+ b) = b.
Proof.
  induction a as [|c a IH]; simpl; [apply substring_all | exact IH].
Qed.

Lemma append_not_empty (a b : string) : b ≠ ""%string → a +:+ b ≠ ""%string.
Proof. destruct a; simpl; [tauto | discriminate]. Qed.

(** A string with a suffix is the suffix after what [TrimSuffix] leaves. *)
Lemma HasSuffix_append (a suffix : string) :
  HasSuffix (a +:+ suffix) suffix = true.
Proof.
  unfold HasSuffix. rewrite length_append.
  replace (String.length a + String.length suffix - String.length suffix)%nat
    with (String.length a) by lia.
  rewrite substring_append_suffix, String.eqb_refl, andb_true_r.
  apply Nat.leb_le. lia.
Qed.

Lemma TrimSuffix_append (a suffix : string) :
  TrimSuffix (a +:+ suffix) suffix = a.
Proof.
  unfold TrimSuffix. rewrite HasSuffix_append, length_append.
  replace (String.length a + String.length suffix - String.length suffix)%nat
    with (String.length a) by lia.
  apply substring_append_prefix.
Qed.

(** ** The claims about the value cache *)

(** C2, as the code has it.  A lookup never checks the age of an entry: a
    value with the shape of a hash whose key is present in the cache of the
    stream is answered with the stored value, whatever time has passed
    since its last access. *)
Theorem lookup_ignores_age {R : MapRange} (caches : ValueCaches)
    (activity key : string) (valueCache : gmap string CachedValue)
    (cachedValue : CachedValue) (timeNow : time_Time) :
  caches !! activity = Some valueCache →
  valueCache !! key = Some cachedValue →
  matchHash key = true →
  fst <$> activityValueCache caches activity key timeNow
  = Some (Value cachedValue).
Proof.
  intros Hc Hk Hm.
  destruct (activityValueCache_lookup caches activity valueCache key timeNow
              Hc Hm) as (caches' & Hcall & _).
  rewrite Hcall, Hk. reflexivity.
Qed.

Lemma lookup_ignores_age_witness :
  agedCaches !! setPolicyActivity = Some agedCache
  ∧ agedCache !! Sha1.sum_hex "abc" = Some (mkCachedValue 0 "abc")
  ∧ fst <$> activityValueCache (H := rangeForward) agedCaches
              setPolicyActivity (Sha1.sum_hex "abc") 1000
    = Some "abc"%string.
Proof.
  split; [apply lookup_insert_eq|]. split; [apply lookup_insert_eq|].
  apply (lookup_ignores_age (R := rangeForward) agedCaches setPolicyActivity
           (Sha1.sum_hex "abc") agedCache (mkCachedValue 0 "abc") 1000).
  - apply lookup_insert_eq.
  - apply lookup_insert_eq.
  - vm_compute. reflexivity.
Defined.

(** C2 does not hold of the code: a value stored at time 0 is returned by
    the lookup of its digest at time 1000, more than the cache time
    later. *)
Lemma stale_entry_is_returned :
  activityValueCache (H := rangeForward) ActivityValuesBySha1
    setPolicyActivity "abc" 0 = Some ("abc"%string, agedCaches)
  ∧ 1000 - 0 > ActivityCacheSeconds
  ∧ fst <$> activityValueCache (H := rangeForward) agedCaches
              setPolicyActivity (Sha1.sum_hex "abc") 1000
    = Some "abc"%string.
Proof.
  split; [exact agedCaches_stored|]. split; [reflexivity|].
  vm_compute. reflexivity.
Qed.

(** C6, as the code has it.  Storing a non-empty value without a run of 40
    hexadecimal characters returns the value itself, not its digest, and
    files it under its digest; the lookup of the digest that follows on the
    same stream returns the value. *)
Theorem store_then_resolve {R : MapRange} (caches : ValueCaches)
    (activity value : string) (valueCache : gmap string CachedValue)
    (timeStored timeNow : time_Time) :
  MapRangeOk R →
  caches !! activity = Some valueCache →
  ¬ contains_hash value →
  value ≠ ""%string →
  ∃ caches1 caches2,
    activityValueCache caches activity value timeStored
    = Some (value, caches1)
    ∧ caches1 !! activity
      = Some (<[Sha1.sum_hex value := mkCachedValue timeStored value]>
                valueCache)
    ∧ activityValueCache caches1 activity (Sha1.sum_hex value) timeNow
      = Some (value, caches2).
Proof.
  intros Hok Hc Hrun Hne.
  assert (Hm : matchHash value = false).
  { destruct (matchHash value) eqn:Hm; [|reflexivity].
    exfalso. apply Hrun, matchHash_spec, Hm. }
  rewrite (activityValueCache_literal caches activity valueCache value
             timeStored Hc Hm Hne).
  rewrite cacheMaintain_id by assumption.
  set (caches1 := <[activity := _]> caches).
  assert (Hc1 : caches1 !! activity
                = Some (<[Sha1.sum_hex value := mkCachedValue timeStored value]>
                          valueCache)) by apply lookup_insert_eq.
  destruct (activityValueCache_lookup caches1 activity _ (Sha1.sum_hex value)
              timeNow Hc1 (sum_hex_matches value)) as (caches' & Hcall & _).
  rewrite lookup_insert_eq in Hcall. simpl in Hcall.
  exists caches1. eexists. repeat split; [exact Hc1 | exact Hcall].
Qed.

Lemma store_then_resolve_witness :
  ∃ caches1 caches2,
    activityValueCache (H := rangeForward) ActivityValuesBySha1
      setPolicyActivity "abc" 0 = Some ("abc"%string, caches1)
    ∧ caches1 !! setPolicyActivity
      = Some (<[Sha1.sum_hex "abc" := mkCachedValue 0 "abc"]> ∅)
    ∧ activityValueCache (H := rangeForward) caches1 setPolicyActivity
        (Sha1.sum_hex "abc") 7 = Some ("abc"%string, caches2).
Proof.
  apply (store_then_resolve (R := rangeForward) ActivityValuesBySha1
           setPolicyActivity "abc" ∅ 0 7).
  - intros V m. reflexivity.
  - vm_compute. reflexivity.
  - intros Hrun. apply matchHash_spec in Hrun. vm_compute in Hrun.
    discriminate.
  - discriminate.
Defined.

(** C6 does not hold of the code: the call that stores [abc] returns
    [abc], which is not its digest. *)
Lemma store_returns_the_value :
  fst <$> activityValueCache (H := rangeForward) ActivityValuesBySha1
            setPolicyActivity "abc" 0
  ≠ Some (Sha1.sum_hex "abc").
Proof. vm_compute. discriminate. Qed.

(** C8.  In every state the caches reach from the initial, empty ones, each
    key is the digest of the value stored under it; and a further store of
    a literal value, lookup by hash or maintenance sweep leaves it so. *)
Theorem cache_keys_are_digests (caches : ValueCaches) :
  reachable caches →
  keyed_by_digest caches
  ∧ (∀ (R : MapRange) activity value timeNow result caches',
       activityValueCache caches activity value timeNow
       = Some (result, caches') →
       keyed_by_digest caches')
  ∧ (∀ (R : MapRange) activity timeNow,
       keyed_by_digest (cacheMaintain caches activity timeNow)).
Proof.
  intros Hreach. pose proof (reachable_keyed caches Hreach) as Hinv.
  split; [exact Hinv|]. split.
  - intros R activity value timeNow result caches' Hcall.
    eapply activityValueCache_keyed; eassumption.
  - intros R activity timeNow. apply cacheMaintain_keyed, Hinv.
Qed.

Lemma cache_keys_are_digests_witness :
  reachable agedCaches ∧ keyed_by_digest agedCaches.
Proof.
  assert (Hreach : reachable agedCaches).
  { apply (reachable_value rangeForward ActivityValuesBySha1
             setPolicyActivity "abc" 0 "abc").
    - intros V m. reflexivity.
    - apply reachable_init.
    - exact agedCaches_stored. }
  split; [exact Hreach|].
  apply (cache_keys_are_digests agedCaches Hreach).
Defined.

(** C9.  The pattern is looked for anywhere in the value.  A value that
    holds a run of 40 hexadecimal characters is taken for a key: the call
    answers with the value stored under the whole string, or with the empty
    string when the whole string is not a key; it adds no key to the cache,
    so the value is not stored under its digest, and a miss leaves the
    caches as they were. *)
Theorem hash_shaped_value_is_a_key {R : MapRange} (caches : ValueCaches)
    (activity value : string) (valueCache : gmap string CachedValue)
    (timeNow : time_Time) :
  MapRangeOk R →
  caches !! activity = Some valueCache →
  contains_hash value →
  matchHash value = true
  ∧ ∃ caches' valueCache',
      activityValueCache caches activity value timeNow
      = Some (match valueCache !! value with
              | Some cachedValue => Value cachedValue
              | None => ""%string
              end, caches')
      ∧ caches' !! activity = Some valueCache'
      ∧ (∀ key, valueCache !! key = None → valueCache' !! key = None)
      ∧ (valueCache !! value = None → caches' = caches).
Proof.
  intros Hok Hc Hrun. apply matchHash_spec in Hrun as Hm.
  split; [exact Hm|].
  destruct (activityValueCache_lookup caches activity valueCache value timeNow
              Hc Hm) as (caches' & Hcall & Hc' & Hother).
  rewrite cacheMaintain_id in Hcall by assumption.
  exists caches'. eexists. split; [exact Hcall|]. split; [exact Hc'|]. split.
  - intros key Hkey.
    destruct (valueCache !! value) as [cachedValue|] eqn:Hv; [|exact Hkey].
    destruct (decide (Value cachedValue ≠ ""%string)); [|exact Hkey].
    rewrite lookup_insert_ne; [exact Hkey|]. congruence.
  - intros Hv. rewrite Hv in Hc'. apply map_eq. intros other.
    destruct (decide (other = activity)) as [->|Hne].
    + congruence.
    + apply Hother, Hne.
Qed.

Lemma hash_shaped_value_is_a_key_witness :
  matchHash noteWithDigest = true
  ∧ ∃ caches' valueCache',
      activityValueCache (H := rangeForward) agedCaches setPolicyActivity
        noteWithDigest 7
      = Some (match agedCache !! noteWithDigest with
              | Some cachedValue => Value cachedValue
              | None => ""%string
              end, caches')
      ∧ caches' !! setPolicyActivity = Some valueCache'
      ∧ (∀ key, agedCache !! key = None → valueCache' !! key = None)
      ∧ (agedCache !! noteWithDigest = None → caches' = agedCaches).
Proof.
  apply (hash_shaped_value_is_a_key (R := rangeForward) agedCaches
           setPolicyActivity noteWithDigest agedCache 7).
  - intros V m. reflexivity.
  - apply lookup_insert_eq.
  - apply matchHash_spec. vm_compute. reflexivity.
Defined.

(** The value of the witness is a literal text, and the call answers it
    with the empty string. *)
Example note_with_digest_is_dropped :
  fst <$> activityValueCache (H := rangeForward) agedCaches setPolicyActivity
            noteWithDigest 7
  = Some ""%string.
Proof. vm_compute. reflexivity. Qed.

(** ** The claims about the handlers *)

(** C1, as the code has it.  [HandleLoadBalancer] collects the registry
    after the names are resolved and before the configuration is written:
    when every policy the load balancer refers to is registered, the call
    is the call of [WriteConfiguration] on the registry already reduced to
    the policies referred to, and that reduced registry is the one the call
    leaves, whether the writing succeeds or fails. *)
Theorem collection_precedes_emission {R : MapRange} {D : XmlDecoder}
    {C : ConfigParser} (handler : HaproxyConfigurationHandler)
    (value : string) (w : World) (activityDescriptions : ActivityDescriptions)
    (loadBalancer : ActivityLoadBalancer) :
  MapRangeOk R →
  ActivityDescriptionsString value = (activityDescriptions, None) →
  LoadBalancers activityDescriptions = [loadBalancer] →
  PolicyDescriptions loadBalancer = [] →
  Forall (λ n, is_Some (Policies w !! n)) (referencedNames loadBalancer) →
  ∃ descriptions,
    resolvePolicies (Policies w) loadBalancer = Ok descriptions
    ∧ HandleLoadBalancer handler value w
      = WriteConfiguration handler
          (withPolicyDescriptions loadBalancer descriptions)
          (mkWorld (filter (λ entry, entry.1 ∈ referencedNames loadBalancer)
                           (Policies w))
                   (Effects w))
    ∧ Policies (snd (HandleLoadBalancer handler value w))
      = filter (λ entry, entry.1 ∈ referencedNames loadBalancer) (Policies w).
Proof.
  intros Hok Hdecode Hone Hnone Hall.
  assert (Hranged : Forall (λ n, is_Some (Policies w !! n))
            (map snd (rangeMap _ (activePolicyNamesOf loadBalancer)))).
  { apply Forall_forall. intros n Hn.
    apply (rangedNames_elem Hok) in Hn.
    rewrite Forall_forall in Hall. apply Hall, Hn. }
  destruct (appendPolicies_registered (Policies w) _
              (PolicyDescriptions loadBalancer) Hranged)
    as (found & Hcall & _).
  assert (Hresolve : resolvePolicies (Policies w) loadBalancer
                     = Ok (PolicyDescriptions loadBalancer ++ found))
    by exact Hcall.
  assert (Hhandle : HandleLoadBalancer handler value w
            = WriteConfiguration handler
                (withPolicyDescriptions loadBalancer
                   (PolicyDescriptions loadBalancer ++ found))
                (mkWorld (filter (λ entry,
                                    entry.1 ∈ referencedNames loadBalancer)
                                 (Policies w))
                         (Effects w))).
  { unfold HandleLoadBalancer. rewrite Hdecode, Hone, Hnone, Hresolve.
    rewrite (RetainOnly_referenced Hok). reflexivity. }
  exists (PolicyDescriptions loadBalancer ++ found).
  split; [exact Hresolve|]. split; [exact Hhandle|].
  rewrite Hhandle. apply WriteConfiguration_Policies.
Qed.

Lemma collection_precedes_emission_witness :
  ∃ descriptions,
    resolvePolicies (H := rangeForward) (Policies registeredWorld)
      (loadBalancerWith [["a"%string]] [] []) = Ok descriptions
    ∧ HandleLoadBalancer (H := rangeForward) (H0 := documentDecoder)
        (H1 := lineParser) readOnlyFileHandler "<lb policies='a'/>"
        registeredWorld
      = WriteConfiguration (H := rangeForward) (H0 := lineParser)
          readOnlyFileHandler
          (withPolicyDescriptions (loadBalancerWith [["a"%string]] [] [])
             descriptions)
          (mkWorld
             (filter (λ entry,
                        entry.1 ∈ referencedNames
                                    (loadBalancerWith [["a"%string]] [] []))
                     (Policies registeredWorld))
             (Effects registeredWorld))
    ∧ Policies
        (snd (HandleLoadBalancer (H := rangeForward) (H0 := documentDecoder)
                (H1 := lineParser) readOnlyFileHandler "<lb policies='a'/>"
                registeredWorld))
      = filter (λ entry,
                  entry.1 ∈ referencedNames
                              (loadBalancerWith [["a"%string]] [] []))
               (Policies registeredWorld).
Proof.
  apply (collection_precedes_emission (R := rangeForward)
           (D := documentDecoder) (C := lineParser) readOnlyFileHandler
           "<lb policies='a'/>" registeredWorld
           (mkActivityDescriptions [loadBalancerWith [["a"%string]] [] []])
           (loadBalancerWith [["a"%string]] [] [])).
  - exact rangeForward_ok.
  - vm_compute. reflexivity.
  - reflexivity.
  - reflexivity.
  - apply Forall_cons. split; [|apply Forall_nil_2].
    exists (policyNamed "a"). vm_compute. reflexivity.
Defined.

(** C1 does not hold of the code: with the policies [a] and [b] registered
    and a load balancer that refers to [a], the template cannot be read,
    the call fails with the error of the template supplier, and the policy
    [b] has left the registry. *)
Lemma failed_emission_has_collected :
  fst (HandleLoadBalancer (H := rangeForward) (H0 := documentDecoder)
         (H1 := lineParser) noTemplateHandler "<lb policies='a'/>"
         registeredWorld)
  = Some "open haproxy.template: no such file or directory"%string
  ∧ Policies registeredWorld !! "b"%string = Some (policyNamed "b")
  ∧ Policies
      (snd (HandleLoadBalancer (H := rangeForward) (H0 := documentDecoder)
              (H1 := lineParser) noTemplateHandler "<lb policies='a'/>"
              registeredWorld)) !! "b"%string
    = None.
Proof. repeat split; vm_compute; reflexivity. Qed.

(** The same when the configuration is made and cannot be written. *)
Example failed_write_has_collected :
  fst (HandleLoadBalancer (H := rangeForward) (H0 := documentDecoder)
         (H1 := lineParser) readOnlyFileHandler "<lb policies='a'/>"
         registeredWorld)
  = Some "open haproxy.conf: permission denied"%string
  ∧ Policies
      (snd (HandleLoadBalancer (H := rangeForward) (H0 := documentDecoder)
              (H1 := lineParser) readOnlyFileHandler "<lb policies='a'/>"
              registeredWorld)) !! "b"%string
    = None.
Proof. split; vm_compute; reflexivity. Qed.

(** C3.  A load balancer update that refers to a policy without an entry
    in the registry fails with the error [policy not found] followed by a
    name that is referred to and not registered; the world after the call
    is the world before it: the registry is as it was, and neither the
    template supplier nor the configuration receiver has been called. *)
Theorem missing_policy_fails_closed {R : MapRange} {D : XmlDecoder}
    {C : ConfigParser} (handler : HaproxyConfigurationHandler)
    (value : string) (w : World) (activityDescriptions : ActivityDescriptions)
    (loadBalancer : ActivityLoadBalancer) :
  MapRangeOk R →
  ActivityDescriptionsString value = (activityDescriptions, None) →
  LoadBalancers activityDescriptions = [loadBalancer] →
  PolicyDescriptions loadBalancer = [] →
  Exists (λ n, Policies w !! n = None) (referencedNames loadBalancer) →
  ∃ missing,
    missing ∈ referencedNames loadBalancer
    ∧ Policies w !! missing = None
    ∧ HaproxyConfigurationHandler_Send handler "set-loadbalancer" value w
      = (Some ("policy not found " +:+ missing), w).
Proof.
  intros Hok Hdecode Hone Hnone Hex.
  assert (Hranged : Exists (λ n, Policies w !! n = None)
            (map snd (rangeMap _ (activePolicyNamesOf loadBalancer)))).
  { apply Exists_exists in Hex as (n & Hn & Hmissing).
    apply Exists_exists. exists n. split; [|exact Hmissing].
    apply (rangedNames_elem Hok), Hn. }
  destruct (appendPolicies_missing (Policies w) _
              (PolicyDescriptions loadBalancer) Hranged)
    as (missing & Hin & Hmissing & Hcall).
  exists missing. split; [apply (rangedNames_elem Hok), Hin|].
  split; [exact Hmissing|].
  unfold HaproxyConfigurationHandler_Send. simpl.
  unfold HandleLoadBalancer. rewrite Hdecode, Hone, Hnone.
  unfold resolvePolicies. rewrite Hcall. reflexivity.
Qed.

Lemma missing_policy_fails_closed_witness :
  ∃ missing,
    missing ∈ referencedNames
                (loadBalancerWith [["a"%string]] [["c"%string]] [])
    ∧ Policies registeredWorld !! missing = None
    ∧ HaproxyConfigurationHandler_Send (H := rangeForward)
        (H0 := documentDecoder) (H1 := lineParser) fileHandler
        "set-loadbalancer" "<lb policies='a c'/>" registeredWorld
      = (Some ("policy not found " +:+ missing), registeredWorld).
Proof.
  apply (missing_policy_fails_closed (R := rangeForward)
           (D := documentDecoder) (C := lineParser) fileHandler
           "<lb policies='a c'/>" registeredWorld
           (mkActivityDescriptions
              [loadBalancerWith [["a"%string]] [["c"%string]] []])
           (loadBalancerWith [["a"%string]] [["c"%string]] [])).
  - exact rangeForward_ok.
  - vm_compute. reflexivity.
  - reflexivity.
  - reflexivity.
  - apply Exists_cons_tl, Exists_cons_hd. vm_compute. reflexivity.
Defined.

(** The call of the witness names the policy [c]. *)
Example missing_policy_is_named :
  HaproxyConfigurationHandler_Send (H := rangeForward)
    (H0 := documentDecoder) (H1 := lineParser) fileHandler
    "set-loadbalancer" "<lb policies='a c'/>" registeredWorld
  = (Some "policy not found c"%string, registeredWorld).
Proof. vm_compute. reflexivity. Qed.




(** C5, as the code has it.  When every policy a load balancer refers to is
    registered, the policies attached to it are those of a list of names
    without duplicates that holds the first occurrences of the names
    referred to, in the order in which the range of [activePolicyNames]
    presents them. *)
Theorem resolved_policies_once_each {R : MapRange}
    (policies : gmap string ActivityPolicy)
    (loadBalancer : ActivityLoadBalancer) :
  MapRangeOk R →
  Forall (λ n, is_Some (policies !! n)) (referencedNames loadBalancer) →
  ∃ names found,
    names = map snd (rangeMap _ (activePolicyNamesOf loadBalancer))
    ∧ names ≡ₚ firstOccurrences (referencedNames loadBalancer)
    ∧ NoDup names
    ∧ Forall2 (λ n d, policies !! n = Some d) names found
    ∧ resolvePolicies policies loadBalancer
      = Ok (PolicyDescriptions loadBalancer ++ found).
Proof.
  intros Hok Hall.
  assert (Hranged : Forall (λ n, is_Some (policies !! n))
            (map snd (rangeMap _ (activePolicyNamesOf loadBalancer)))).
  { apply Forall_forall. intros n Hn.
    apply (rangedNames_elem Hok) in Hn.
    rewrite Forall_forall in Hall. apply Hall, Hn. }
  destruct (appendPolicies_registered policies _
              (PolicyDescriptions loadBalancer) Hranged)
    as (found & Hcall & Hfound).
  exists (map snd (rangeMap _ (activePolicyNamesOf loadBalancer))), found.
  split; [reflexivity|].
  split; [apply (rangedNames_firstOccurrences Hok)|].
  split; [apply (rangedNames_NoDup Hok)|].
  split; [exact Hfound | exact Hcall].
Qed.

Lemma resolved_policies_once_each_witness :
  ∃ names found,
    names
    = map snd
        (rangeMap (MapRange := rangeBackward) _
           (activePolicyNamesOf
              (loadBalancerWith [["a"%string; "b"%string]] [["a"%string]]
                 [])))
    ∧ names
      ≡ₚ firstOccurrences
           (referencedNames
              (loadBalancerWith [["a"%string; "b"%string]] [["a"%string]]
                 []))
    ∧ NoDup names
    ∧ Forall2 (λ n d, registryOf ["a"%string; "b"%string] !! n = Some d)
        names found
    ∧ resolvePolicies (H := rangeBackward)
        (registryOf ["a"%string; "b"%string])
        (loadBalancerWith [["a"%string; "b"%string]] [["a"%string]] [])
      = Ok (PolicyDescriptions
              (loadBalancerWith [["a"%string; "b"%string]] [["a"%string]]
                 [])
            ++ found).
Proof.
  apply (resolved_policies_once_each (R := rangeBackward)
           (registryOf ["a"%string; "b"%string])
           (loadBalancerWith [["a"%string; "b"%string]] [["a"%string]] [])).
  - exact rangeBackward_ok.
  - repeat (apply Forall_cons; split; [eexists; vm_compute; reflexivity|]).
    apply Forall_nil_2.
Defined.

(** C5 does not hold of the code: the first occurrences of the names are
    [a], [b]; under an iteration order that presents every entry once the
    policies attached are those of [b], [a]. *)
Lemma resolved_order_is_the_order_of_the_range :
  MapRangeOk rangeBackward
  ∧ firstOccurrences
      (referencedNames
         (loadBalancerWith [["a"%string; "b"%string]] [["a"%string]] []))
    = ["a"%string; "b"%string]
  ∧ resolvePolicies (H := rangeBackward)
      (registryOf ["a"%string; "b"%string])
      (loadBalancerWith [["a"%string; "b"%string]] [["a"%string]] [])
    = Ok [policyNamed "b"; policyNamed "a"].
Proof.
  split; [exact rangeBackward_ok|]. split; vm_compute; reflexivity.
Qed.

(** C7.  The composite handler sends to its primary handler first.  When
    that send fails, the record of sends holds the send to the primary and
    no other, and the error of the primary is returned; when it succeeds,
    the record holds after it one send to each secondary, in turn and with
    the same name and value, and the result is success whatever the
    secondaries return. *)
Theorem composite_send_order {W : Type} (primary : ActivityHandler W)
    (secondaries : list (ActivityHandler W)) (name value : string) (w : W)
    (log : SendLog) :
  CompositeHandler_Send
    (NewCompositeHandler (recorded 0 primary) (recordedFrom 1 secondaries))
    name value (w, log)
  = match Send primary name value w with
    | (Some err, w1) => Some (Some err, (w1, log ++ [(0%nat, name, value)]))
    | (None, w1) =>
        Some (None,
              (sendSecondaries secondaries name value w1,
               log ++ (0%nat, name, value)
                   :: sendsFrom 1 (length secondaries) name value))
    end.
Proof.
  unfold CompositeHandler_Send, NewCompositeHandler. simpl.
  destruct (Send primary name value w) as [[err|] w1].
  - reflexivity.
  - rewrite sendSecondaries_recorded, <- app_assoc. reflexivity.
Qed.

(** A composite handler whose primary accepts and whose two secondaries
    refuse reports success, and both secondaries are sent to; one whose
    primary refuses sends to no secondary. *)
Example refusing_secondaries_are_dropped :
  CompositeHandler_Send
    (NewCompositeHandler (recorded 0 acceptingHandler)
       (recordedFrom 1 [refusingHandler; refusingHandler]))
    "set-policy" "p" (tt, [])
  = Some (None, (tt, [(0%nat, "set-policy"%string, "p"%string);
                      (1%nat, "set-policy"%string, "p"%string);
                      (2%nat, "set-policy"%string, "p"%string)])).
Proof. reflexivity. Qed.

Example refusing_primary_stops_the_send :
  CompositeHandler_Send
    (NewCompositeHandler (recorded 0 refusingHandler)
       (recordedFrom 1 [acceptingHandler; acceptingHandler]))
    "set-policy" "p" (tt, [])
  = Some (Some "connection refused"%string,
          (tt, [(0%nat, "set-policy"%string, "p"%string)])).
Proof. reflexivity. Qed.

(** C10.  A send under a name other than [set-policy] and
    [set-loadbalancer] returns no error and leaves the world as it was,
    whatever the value and whatever the decoder makes of it: the registry
    is unchanged and neither the template supplier nor the configuration
    receiver is called. *)
Theorem other_names_are_ignored {R : MapRange} {D : XmlDecoder}
    {C : ConfigParser} (handler : HaproxyConfigurationHandler)
    (name value : string) (w : World) :
  name ≠ "set-policy"%string →
  name ≠ "set-loadbalancer"%string →
  HaproxyConfigurationHandler_Send handler name value w = (None, w).
Proof.
  intros Hpolicy Hbalancer. unfold HaproxyConfigurationHandler_Send.
  apply String.eqb_neq in Hpolicy, Hbalancer.
  rewrite Hpolicy, Hbalancer. reflexivity.
Qed.

Lemma other_names_are_ignored_witness :
  HaproxyConfigurationHandler_Send (H := rangeForward)
    (H0 := documentDecoder) (H1 := lineParser) fileHandler
    "set-listener" "<lb policies='a'/>" registeredWorld
  = (None, registeredWorld).
Proof.
  apply (other_names_are_ignored (R := rangeForward) (D := documentDecoder)
           (C := lineParser) fileHandler "set-listener" "<lb policies='a'/>"
           registeredWorld); discriminate.
Defined.

(** * Further properties of the code *)

(** ** The activity value cache *)

(** X1.  The sweep of [cacheMaintain] removes nothing.  The second of the
    minute of the time of the sweep is at most 59 and is compared with the
    second of the minute of the last access plus 300, so no key is ever
    stale: the caches after the sweep are the caches before it, whatever
    the age of their entries. *)
Theorem sweep_removes_nothing {R : MapRange} (caches : ValueCaches)
    (activity : string) (timeNow : time_Time) :
  MapRangeOk R →
  cacheMaintain caches activity timeNow = caches.
Proof.
  intros Hok. unfold cacheMaintain.
  destruct (caches !! activity) as [valueCache|] eqn:Hc; [|reflexivity].
  rewrite staleKeysOf_empty. unfold deleteKeys.
  rewrite rangeMap_empty by exact Hok. apply insert_id, Hc.
Qed.

Lemma sweep_removes_nothing_witness :
  cacheMaintain (H := rangeForward) agedCaches setPolicyActivity 86400
  = agedCaches.
Proof.
  apply (sweep_removes_nothing (R := rangeForward) agedCaches
           setPolicyActivity 86400).
  exact rangeForward_ok.
Defined.

(** X2.  The empty value is never stored: the call with the empty string
    returns the empty string and leaves the caches as they were, also for
    an activity that has no cache. *)
Theorem empty_value_is_not_stored {R : MapRange} (caches : ValueCaches)
    (activity : string) (timeNow : time_Time) :
  MapRangeOk R →
  activityValueCache caches activity "" timeNow = Some (""%string, caches).
Proof.
  intros Hok. unfold activityValueCache.
  change (matchHash "") with false. cbn iota.
  rewrite decide_False by (intros Hne; apply Hne; reflexivity).
  rewrite cacheMaintain_id by exact Hok. reflexivity.
Qed.

Lemma empty_value_is_not_stored_witness :
  activityValueCache (H := rangeForward) agedCaches setPolicyActivity "" 7
  = Some (""%string, agedCaches).
Proof.
  apply (empty_value_is_not_stored (R := rangeForward) agedCaches
           setPolicyActivity 7).
  exact rangeForward_ok.
Defined.

(** X3.  An activity without a cache reads as the [nil] map.  A value with
    the shape of a hash is looked up in it and answered with the empty
    string, and so is the empty value; any other value is assigned to an
    entry of the [nil] map, and the call panics. *)
Theorem activity_without_cache {R : MapRange} (caches : ValueCaches)
    (activity value : string) (timeNow : time_Time) :
  caches !! activity = None →
  activityValueCache caches activity value timeNow
  = if matchHash value then Some (""%string, caches)
    else if decide (value = ""%string) then Some (""%string, caches)
         else None.
Proof.
  intros Hc. unfold activityValueCache, cacheAssign, cacheMaintain.
  rewrite Hc. simpl.
  destruct (matchHash value).
  - rewrite decide_False by (intros Hne; apply Hne; reflexivity).
    rewrite Hc. reflexivity.
  - destruct (decide (value = ""%string)) as [->|Hne].
    + rewrite decide_False by (intros Hne; apply Hne; reflexivity).
      rewrite Hc. reflexivity.
    + rewrite decide_True by exact Hne. reflexivity.
Qed.

Lemma activity_without_cache_witness :
  activityValueCache (H := rangeForward) ActivityValuesBySha1
    "LoadBalancingVmActivities.getInstanceStatus" "GetInstanceStatus" 7
  = if matchHash "GetInstanceStatus" then Some (""%string, ActivityValuesBySha1)
    else if decide ("GetInstanceStatus"%string = ""%string)
         then Some (""%string, ActivityValuesBySha1)
         else None.
Proof.
  apply (activity_without_cache (R := rangeForward) ActivityValuesBySha1
           "LoadBalancingVmActivities.getInstanceStatus" "GetInstanceStatus"
           7).
  unfold ActivityValuesBySha1.
  rewrite !lookup_insert_ne by discriminate. apply lookup_empty.
Defined.

(** X4.  A hit refreshes the time of last access: the lookup of a key with
    a stored, non-empty value returns the value and writes it back under
    the same key with the time of the call; nothing else changes. *)
Theorem lookup_refreshes_last_access {R : MapRange} (caches : ValueCaches)
    (activity key : string) (valueCache : gmap string CachedValue)
    (cachedValue : CachedValue) (timeNow : time_Time) :
  MapRangeOk R →
  caches !! activity = Some valueCache →
  valueCache !! key = Some cachedValue →
  matchHash key = true →
  Value cachedValue ≠ ""%string →
  activityValueCache caches activity key timeNow
  = Some (Value cachedValue,
          <[activity := <[key := mkCachedValue timeNow (Value cachedValue)]>
                          valueCache]> caches).
Proof.
  intros Hok Hc Hk Hm Hne. unfold activityValueCache, cacheAssign.
  rewrite Hm, Hc. simpl. rewrite Hk.
  rewrite decide_True by exact Hne.
  rewrite cacheMaintain_id by exact Hok. reflexivity.
Qed.

Lemma lookup_refreshes_last_access_witness :
  activityValueCache (H := rangeForward) agedCaches setPolicyActivity
    (Sha1.sum_hex "abc") 1000
  = Some (Value (mkCachedValue 0 "abc"),
          <[setPolicyActivity :=
              <[Sha1.sum_hex "abc" :=
                  mkCachedValue 1000 (Value (mkCachedValue 0 "abc"))]>
                agedCache]> agedCaches).
Proof.
  apply (lookup_refreshes_last_access (R := rangeForward) agedCaches
           setPolicyActivity (Sha1.sum_hex "abc") agedCache
           (mkCachedValue 0 "abc") 1000).
  - exact rangeForward_ok.
  - apply lookup_insert_eq.
  - apply lookup_insert_eq.
  - apply sum_hex_matches.
  - discriminate.
Defined.

(** X5.  The caches never shrink: a key that is present before a call of
    [activityValueCache] is present after it, whatever the activity, the
    value and the time of the call. *)
Theorem cache_never_shrinks {R : MapRange} (caches caches' : ValueCaches)
    (activity value result : string) (timeNow : time_Time)
    (other key : string) (valueCache : gmap string CachedValue) :
  MapRangeOk R →
  activityValueCache caches activity value timeNow = Some (result, caches') →
  caches !! other = Some valueCache →
  is_Some (valueCache !! key) →
  ∃ valueCache',
    caches' !! other = Some valueCache' ∧ is_Some (valueCache' !! key).
Proof.
  intros Hok Hcall Hother Hkey. unfold activityValueCache in Hcall.
  set (pair := if matchHash value then _ else _) in Hcall.
  destruct pair as [valueSha1 value'].
  destruct (decide (value' ≠ ""%string)) as [Hne|He].
  - unfold cacheAssign in Hcall.
    destruct (caches !! activity) as [old|] eqn:Hold; [|discriminate].
    rewrite cacheMaintain_id in Hcall by exact Hok.
    injection Hcall as _ <-.
    destruct (decide (other = activity)) as [->|Hdiff].
    + rewrite lookup_insert_eq. eexists. split; [reflexivity|].
      assert (old = valueCache) as -> by congruence.
      destruct (decide (key = valueSha1)) as [->|Hk].
      * rewrite lookup_insert_eq. eauto.
      * rewrite lookup_insert_ne by congruence. exact Hkey.
    + rewrite lookup_insert_ne by congruence. eauto.
  - rewrite cacheMaintain_id in Hcall by exact Hok.
    injection Hcall as _ <-. eauto.
Qed.

Lemma cache_never_shrinks_witness :
  ∃ valueCache',
    cacheMaintain (H := rangeForward)
      (<[setPolicyActivity :=
           <[Sha1.sum_hex "xyz" := mkCachedValue 7 "xyz"]> agedCache]>
         agedCaches)
      setPolicyActivity 7 !! setPolicyActivity
    = Some valueCache'
    ∧ is_Some (valueCache' !! Sha1.sum_hex "abc").
Proof.
  apply (cache_never_shrinks (R := rangeForward) agedCaches _
           setPolicyActivity "xyz" "xyz" 7 setPolicyActivity
           (Sha1.sum_hex "abc") agedCache).
  - exact rangeForward_ok.
  - apply activityValueCache_literal.
    + apply lookup_insert_eq.
    + vm_compute. reflexivity.
    + discriminate.
  - apply lookup_insert_eq.
  - exists (mkCachedValue 0 "abc"). apply lookup_insert_eq.
Defined.

(** X6.  The activities are kept apart: a call for one activity leaves the
    cache of every other activity as it was. *)
Theorem other_activities_are_untouched {R : MapRange}
    (caches caches' : ValueCaches) (activity value result : string)
    (timeNow : time_Time) (other : string) :
  activityValueCache caches activity value timeNow = Some (result, caches') →
  other ≠ activity →
  caches' !! other = caches !! other.
Proof.
  intros Hcall Hdiff. unfold activityValueCache in Hcall.
  set (pair := if matchHash value then _ else _) in Hcall.
  destruct pair as [valueSha1 value'].
  destruct (decide (value' ≠ ""%string)) as [Hne|He].
  - unfold cacheAssign in Hcall.
    destruct (caches !! activity) as [old|] eqn:Hold; [|discriminate].
    injection Hcall as _ <-.
    rewrite cacheMaintain_lookup_ne by exact Hdiff.
    apply lookup_insert_ne. congruence.
  - injection Hcall as _ <-. apply cacheMaintain_lookup_ne, Hdiff.
Qed.

Lemma other_activities_are_untouched_witness :
  agedCaches !! "LoadBalancingVmActivities.setLoadBalancer"%string
  = ActivityValuesBySha1 !! "LoadBalancingVmActivities.setLoadBalancer"%string.
Proof.
  apply (other_activities_are_untouched (R := rangeForward)
           ActivityValuesBySha1 agedCaches setPolicyActivity "abc" "abc" 0
           "LoadBalancingVmActivities.setLoadBalancer").
  - exact agedCaches_stored.
  - discriminate.
Defined.

(** ** The digest and the hash pattern *)

(** X7.  The key made of a value has 40 characters, each of them a
    hexadecimal digit, so it has itself the shape of a hash: passed as a
    value it is looked up, never stored. *)
Theorem digest_has_the_shape_of_a_hash (value : string) :
  String.length (Sha1.sum_hex value) = 40%nat
  ∧ Forall (λ c, is_hex c = true)
      (list_ascii_of_string (Sha1.sum_hex value))
  ∧ matchHash (Sha1.sum_hex value) = true.
Proof.
  unfold Sha1.sum_hex, Sha1.hex. split; [|split].
  - rewrite <- list_ascii_length.
    rewrite list_ascii_of_string_of_list_ascii.
    rewrite hex_chars_length, Sum_length. reflexivity.
  - rewrite list_ascii_of_string_of_list_ascii. apply hex_chars_is_hex.
  - apply sum_hex_matches.
Qed.

(** X8.  A value of fewer than 40 characters never has the shape of a
    hash: it is stored as a literal value. *)
Theorem short_value_is_a_literal (value : string) :
  (String.length value < 40)%nat →
  matchHash value = false.
Proof.
  intros Hlen. destruct (matchHash value) eqn:Hm; [|reflexivity].
  apply matchHash_spec in Hm as (pre & run & post & Heq & Hrun & _).
  rewrite <- list_ascii_length, Heq, !length_app in Hlen.
  unfold hashRunLength in Hrun. lia.
Qed.

Lemma short_value_is_a_literal_witness :
  matchHash "GetInstanceStatus" = false.
Proof.
  apply (short_value_is_a_literal "GetInstanceStatus"). simpl. lia.
Defined.

(** ** The HAProxy configuration handler *)

(** X9.  A snapshot with one load balancer that carries one policy is
    registered under the name of the policy: the send returns no error, the
    registry answers the name with the policy, every other name is answered
    as before (a policy registered earlier under the same name is
    replaced), and nothing is read or written. *)
Theorem set_policy_registers {R : MapRange} {D : XmlDecoder}
    {C : ConfigParser} (handler : HaproxyConfigurationHandler)
    (value : string) (w : World) (activityDescriptions : ActivityDescriptions)
    (loadBalancer : ActivityLoadBalancer) (activityPolicy : ActivityPolicy) :
  ActivityDescriptionsString value = (activityDescriptions, None) →
  LoadBalancers activityDescriptions = [loadBalancer] →
  PolicyDescriptions loadBalancer = [activityPolicy] →
  ∃ w',
    HaproxyConfigurationHandler_Send handler "set-policy" value w = (None, w')
    ∧ Policies w' !! PolicyName activityPolicy = Some activityPolicy
    ∧ (∀ n, n ≠ PolicyName activityPolicy →
            Policies w' !! n = Policies w !! n)
    ∧ Effects w' = Effects w.
Proof.
  intros Hdecode Hone Hpolicy.
  exists (mkWorld (<[PolicyName activityPolicy := activityPolicy]> (Policies w))
                  (Effects w)).
  split; [|split; [|split]].
  - unfold HaproxyConfigurationHandler_Send. simpl.
    unfold HandlePolicy. rewrite Hdecode, Hone, Hpolicy. reflexivity.
  - apply lookup_insert_eq.
  - intros n Hn. apply lookup_insert_ne. congruence.
  - reflexivity.
Qed.

Lemma set_policy_registers_witness :
  ∃ w',
    HaproxyConfigurationHandler_Send (H := rangeForward)
      (H0 := extendedDecoder) (H1 := lineParser) fileHandler "set-policy"
      "<lb><policy name='c'/></lb>" registeredWorld
    = (None, w')
    ∧ Policies w' !! PolicyName (policyNamed "c") = Some (policyNamed "c")
    ∧ (∀ n, n ≠ PolicyName (policyNamed "c") →
            Policies w' !! n = Policies registeredWorld !! n)
    ∧ Effects w' = Effects registeredWorld.
Proof.
  apply (set_policy_registers (R := rangeForward) (D := extendedDecoder)
           (C := lineParser) fileHandler "<lb><policy name='c'/></lb>"
           registeredWorld
           (mkActivityDescriptions
              [loadBalancerWith [] [] [policyNamed "c"]])
           (loadBalancerWith [] [] [policyNamed "c"]) (policyNamed "c")).
  - vm_compute. reflexivity.
  - reflexivity.
  - reflexivity.
Defined.

(** X10.  A value that cannot be decoded is answered with the error of the
    decoder under both names, and the world is left as it was. *)
Theorem undecodable_value_is_refused {R : MapRange} {D : XmlDecoder}
    {C : ConfigParser} (handler : HaproxyConfigurationHandler)
    (name value : string) (w : World)
    (activityDescriptions : ActivityDescriptions) (e : error) :
  name = "set-policy"%string ∨ name = "set-loadbalancer"%string →
  ActivityDescriptionsString value = (activityDescriptions, Some e) →
  HaproxyConfigurationHandler_Send handler name value w = (Some e, w).
Proof.
  intros [-> | ->] Hdecode; unfold HaproxyConfigurationHandler_Send; simpl.
  - unfold HandlePolicy. rewrite Hdecode. reflexivity.
  - unfold HandleLoadBalancer. rewrite Hdecode. reflexivity.
Qed.

Lemma undecodable_value_is_refused_witness :
  HaproxyConfigurationHandler_Send (H := rangeForward)
    (H0 := documentDecoder) (H1 := lineParser) fileHandler "set-loadbalancer"
    "<lb" registeredWorld
  = (Some "EOF"%string, registeredWorld).
Proof.
  apply (undecodable_value_is_refused (R := rangeForward)
           (D := documentDecoder) (C := lineParser) fileHandler
           "set-loadbalancer" "<lb" registeredWorld
           (mkActivityDescriptions [])).
  - right. reflexivity.
  - vm_compute. reflexivity.
Defined.

(** X11.  A policy that is sent first is found by the load balancer that is
    sent next: when the load balancer refers to that policy and to no
    other, [WriteConfiguration] is called on the load balancer with the
    policy attached, and the registry is reduced to that policy. *)
Theorem policy_then_load_balancer {R : MapRange} {D : XmlDecoder}
    {C : ConfigParser} (handler : HaproxyConfigurationHandler)
    (policy balancer : string) (w : World)
    (policyDescriptions balancerDescriptions : ActivityDescriptions)
    (policyHolder loadBalancer : ActivityLoadBalancer)
    (activityPolicy : ActivityPolicy) :
  MapRangeOk R →
  ActivityDescriptionsString policy = (policyDescriptions, None) →
  LoadBalancers policyDescriptions = [policyHolder] →
  PolicyDescriptions policyHolder = [activityPolicy] →
  ActivityDescriptionsString balancer = (balancerDescriptions, None) →
  LoadBalancers balancerDescriptions = [loadBalancer] →
  PolicyDescriptions loadBalancer = [] →
  PolicyName activityPolicy ∈ referencedNames loadBalancer →
  Forall (λ n, n = PolicyName activityPolicy)
         (referencedNames loadBalancer) →
  HaproxyConfigurationHandler_Send handler "set-loadbalancer" balancer
    (snd (HaproxyConfigurationHandler_Send handler "set-policy" policy w))
  = WriteConfiguration handler
      (withPolicyDescriptions loadBalancer [activityPolicy])
      (mkWorld {[PolicyName activityPolicy := activityPolicy]} (Effects w)).
Proof.
  intros Hok Hpolicy Hholder Hone Hbalancer Hlb Hnone Hin Hall.
  unfold HaproxyConfigurationHandler_Send. simpl.
  unfold HandlePolicy. rewrite Hpolicy, Hholder, Hone. simpl.
  unfold HandleLoadBalancer. rewrite Hbalancer, Hlb, Hnone. simpl.
  unfold resolvePolicies.
  rewrite (rangedNames_single loadBalancer _ Hok Hin Hall), Hnone. simpl.
  rewrite lookup_insert_eq. simpl.
  rewrite (RetainOnly_referenced Hok).
  rewrite (filter_referenced_single _ _ _ _ Hin Hall). reflexivity.
Qed.

Lemma policy_then_load_balancer_witness :
  HaproxyConfigurationHandler_Send (H := rangeForward)
    (H0 := extendedDecoder) (H1 := lineParser) fileHandler
    "set-loadbalancer" "<lb policies='a'/>"
    (snd (HaproxyConfigurationHandler_Send (H := rangeForward)
            (H0 := extendedDecoder) (H1 := lineParser) fileHandler
            "set-policy" "<lb><policy name='a'/></lb>" registeredWorld))
  = WriteConfiguration (H := rangeForward) (H0 := lineParser) fileHandler
      (withPolicyDescriptions (loadBalancerWith [["a"%string]] [] [])
         [policyNamed "a"])
      (mkWorld {[PolicyName (policyNamed "a") := policyNamed "a"]}
               (Effects registeredWorld)).
Proof.
  apply (policy_then_load_balancer (R := rangeForward)
           (D := extendedDecoder) (C := lineParser) fileHandler
           "<lb><policy name='a'/></lb>" "<lb policies='a'/>"
           registeredWorld
           (mkActivityDescriptions
              [loadBalancerWith [] [] [policyNamed "a"]])
           (mkActivityDescriptions [loadBalancerWith [["a"%string]] [] []])
           (loadBalancerWith [] [] [policyNamed "a"])
           (loadBalancerWith [["a"%string]] [] []) (policyNamed "a")).
  - exact rangeForward_ok.
  - vm_compute. reflexivity.
  - reflexivity.
  - reflexivity.
  - vm_compute. reflexivity.
  - reflexivity.
  - reflexivity.
  - apply list_elem_of_here.
  - apply Forall_cons. split; [reflexivity | apply Forall_nil_2].
Defined.

(** X12.  [RetainOnly] keeps exactly the policies whose names are keys of
    [retainKeys]: a name is answered after the call when it was answered
    before it, with the same policy, and is a key to retain.  The values
    of [retainKeys] play no part. *)
Theorem retain_only_keeps_the_retained {R : MapRange}
    (retainKeys : gmap string string) (policies : gmap string ActivityPolicy)
    (n : string) (activityPolicy : ActivityPolicy) :
  MapRangeOk R →
  RetainOnly retainKeys policies !! n = Some activityPolicy
  ↔ policies !! n = Some activityPolicy ∧ is_Some (retainKeys !! n).
Proof.
  intros Hok. rewrite (RetainOnly_lookup Hok).
  destruct (retainKeys !! n) as [v|].
  - split; [intros Hn; split; [exact Hn | exists v; reflexivity] | tauto].
  - split; [discriminate|]. intros [_ [v Hv]]. discriminate.
Qed.

Lemma retain_only_keeps_the_retained_witness :
  RetainOnly (H := rangeBackward) {["a"%string := "x"%string]}
    (registryOf ["a"%string; "b"%string]) !! "a"%string
  = Some (policyNamed "a")
  ↔ registryOf ["a"%string; "b"%string] !! "a"%string = Some (policyNamed "a")
    ∧ is_Some (({["a"%string := "x"%string]} : gmap string string)
               !! "a"%string).
Proof.
  apply (retain_only_keeps_the_retained (R := rangeBackward)
           {["a"%string := "x"%string]} (registryOf ["a"%string; "b"%string])
           "a" (policyNamed "a")).
  exact rangeBackward_ok.
Defined.

(** X13.  The registry [RetainOnly] leaves does not depend on the order in
    which the maps are iterated. *)
Theorem retain_only_whatever_the_order (R1 R2 : MapRange)
    (retainKeys : gmap string string)
    (policies : gmap string ActivityPolicy) :
  MapRangeOk R1 →
  MapRangeOk R2 →
  RetainOnly (H := R1) retainKeys policies
  = RetainOnly (H := R2) retainKeys policies.
Proof.
  intros Hok1 Hok2. apply map_eq. intros n.
  rewrite (RetainOnly_lookup Hok1), (RetainOnly_lookup Hok2). reflexivity.
Qed.

Lemma retain_only_whatever_the_order_witness :
  RetainOnly (H := rangeForward) {["a"%string := "a"%string]}
    (registryOf ["a"%string; "b"%string; "c"%string])
  = RetainOnly (H := rangeBackward) {["a"%string := "a"%string]}
      (registryOf ["a"%string; "b"%string; "c"%string]).
Proof.
  apply (retain_only_whatever_the_order rangeForward rangeBackward
           {["a"%string := "a"%string]}
           (registryOf ["a"%string; "b"%string; "c"%string])).
  - exact rangeForward_ok.
  - exact rangeBackward_ok.
Defined.

(** X14.  [WriteConfiguration] calls the template supplier once and first.
    It either fails after that call and calls nothing else, or calls the
    configuration receiver once, with the text of the configuration, and
    returns what the receiver returns.  It leaves the registry alone. *)
Theorem write_configuration_protocol {R : MapRange} {C : ConfigParser}
    (handler : HaproxyConfigurationHandler)
    (loadBalancer : ActivityLoadBalancer) (w : World) :
  Policies (snd (WriteConfiguration handler loadBalancer w)) = Policies w
  ∧ ((∃ e,
        fst (WriteConfiguration handler loadBalancer w) = Some e
        ∧ Effects (snd (WriteConfiguration handler loadBalancer w))
          = Effects w ++ [TemplateSupplied])
     ∨ (∃ configuration parsed updated,
          TemplateSupplier handler tt = Ok configuration
          ∧ HaproxyConfigurationString configuration = Ok parsed
          ∧ UpdateConfiguration parsed loadBalancer = Ok updated
          ∧ fst (WriteConfiguration handler loadBalancer w)
            = ConfigurationReceiver handler (ParserString updated)
          ∧ Effects (snd (WriteConfiguration handler loadBalancer w))
            = Effects w ++ [TemplateSupplied;
                            ConfigurationReceived (ParserString updated)])).
Proof.
  split; [apply WriteConfiguration_Policies|].
  unfold WriteConfiguration.
  destruct (TemplateSupplier handler tt) as [configuration|e];
    [|left; exists e; auto].
  destruct (HaproxyConfigurationString configuration) as [parsed|e] eqn:Hp;
    [|left; exists e; auto].
  destruct (UpdateConfiguration parsed loadBalancer) as [updated|e] eqn:Hu;
    [|left; exists e; auto].
  right. exists configuration, parsed, updated. simpl.
  rewrite <- app_assoc. auto.
Qed.

(** X15.  Escaping loses nothing: dropping the backslash before each space
    of the escaped form gives the value back, so two values with the same
    escaped form are the same value. *)
Theorem escape_spaces_round_trip (value : string) :
  unescapeSpaces (escapeSpaces value) = value.
Proof.
  induction value as [|c value IH]; [reflexivity|].
  cbn [escapeSpaces]. destruct (Ascii.eqb c " ") eqn:Hc.
  - apply Ascii.eqb_eq in Hc as ->. cbn [unescapeSpaces]. simpl.
    rewrite IH. reflexivity.
  - rewrite escapeSpaces_not_space by exact Hc. rewrite IH. reflexivity.
Qed.

(** ** The composite handler, further *)


(** ** The channel handler *)

(** X17.  A name without a channel is an error, for [Send] and for
    [Receive]: the call returns at once with [channel not found] and the
    name, and no channel is touched. *)
Theorem unknown_channel_is_an_error (handler : ChannelHandler)
    (name value : string) (store : ChannelStore) :
  Channels handler !! name = None →
  ChannelHandler_Send handler name value store
  = Returns (Some ("channel not found: " +:+ name), store)
  ∧ ChannelHandler_Receive handler name store
    = Returns (Err ("channel not found: " +:+ name), store).
Proof.
  intros Hname. unfold ChannelHandler_Send, ChannelHandler_Receive.
  rewrite Hname. split; reflexivity.
Qed.

Lemma unknown_channel_is_an_error_witness :
  ChannelHandler_Send pairedHandler "reply" "v" pairedStore
  = Returns (Some ("channel not found: " +:+ "reply"), pairedStore)
  ∧ ChannelHandler_Receive pairedHandler "reply" pairedStore
    = Returns (Err ("channel not found: " +:+ "reply"), pairedStore).
Proof.
  apply (unknown_channel_is_an_error pairedHandler "reply" "v" pairedStore).
  vm_compute. reflexivity.
Defined.

(** X18.  What is sent under a name is received under every name of the
    same channel, after the values that were waiting: a send on an open
    channel with room returns without error, and the receive that follows
    returns the oldest value of the channel, which is the value sent when
    the channel was empty, and leaves the others in their order. *)
Theorem channel_round_trip (handler : ChannelHandler)
    (sendName receiveName value : string) (id : nat) (c : Channel)
    (store : ChannelStore) :
  Channels handler !! sendName = Some (chanRef id) →
  Channels handler !! receiveName = Some (chanRef id) →
  store !! id = Some c →
  Closed c = false →
  (length (Queue c) < Capacity c)%nat →
  ∃ store1,
    ChannelHandler_Send handler sendName value store = Returns (None, store1)
    ∧ ChannelHandler_Receive handler receiveName store1
      = Returns (Ok (hd value (Queue c)),
                 <[id := mkChannel (Capacity c) (tl (Queue c ++ [value]))
                                   false]> store).
Proof.
  intros Hsend Hreceive Hc Hopen Hroom.
  exists (<[id := mkChannel (Capacity c) (Queue c ++ [value]) false]> store).
  unfold ChannelHandler_Send, ChannelHandler_Receive, chanSend, chanReceive.
  rewrite Hsend, Hreceive, Hc, Hopen.
  apply Nat.ltb_lt in Hroom. rewrite Hroom. split; [reflexivity|].
  rewrite lookup_insert_eq. simpl.
  destruct (Queue c) as [|oldest rest]; simpl; rewrite insert_insert_eq;
    reflexivity.
Qed.

Lemma channel_round_trip_witness :
  ∃ store1,
    ChannelHandler_Send pairedHandler "in" "second" pairedStore
    = Returns (None, store1)
    ∧ ChannelHandler_Receive pairedHandler "out" store1
      = Returns (Ok (hd "second"%string
                        (Queue (mkChannel 2 ["first"%string] false))),
                 <[0%nat :=
                     mkChannel (Capacity (mkChannel 2 ["first"%string] false))
                       (tl (Queue (mkChannel 2 ["first"%string] false)
                            ++ ["second"%string]))
                       false]> pairedStore).
Proof.
  apply (channel_round_trip pairedHandler "in" "out" "second" 0
           (mkChannel 2 ["first"%string] false) pairedStore).
  - vm_compute. reflexivity.
  - vm_compute. reflexivity.
  - apply lookup_insert_eq.
  - reflexivity.
  - simpl. lia.
Defined.

(** ** Activities *)

(** X19.  The tracking of values never panics.  In every state the program
    reaches, each activity whose last value is tracked has a cache and a
    channel name of four bytes at the least, so neither the assignment to
    the cache nor the slice of the channel name can fail: the block returns
    a value to send, for every activity, value and time. *)
Theorem tracking_never_panics {R : MapRange} (runDir : string)
    (timeNow : time_Time) (activity value : string) (s : ActivityState) :
  activity_reachable s →
  ∃ value',
    fst (trackActivityValue runDir timeNow activity value s) = Returns value'.
Proof.
  intros Hreach. apply reachable_trackable in Hreach as Hinv.
  unfold trackActivityValue.
  destruct (LastValues s !! activity) as [lastValue|] eqn:Hlast;
    [|eexists; reflexivity].
  destruct (Hinv activity) as [Hcache [name Hname]]; [eauto|].
  destruct (activityValueCache_returns (ValuesBySha1 s) activity value timeNow
              Hcache) as [[value' caches'] Hcall].
  rewrite Hcall, Hname.
  destruct (decide (value' ≠ lastValue)); eexists; reflexivity.
Qed.

Lemma tracking_never_panics_witness :
  ∃ value',
    fst (trackActivityValue (H := rangeForward) "/var/run/load-balancer-servo"
           7 "LoadBalancingVmActivities.setPolicy" "abc"
           initialActivityState)
    = Returns value'.
Proof.
  apply (tracking_never_panics (R := rangeForward)
           "/var/run/load-balancer-servo" 7
           "LoadBalancingVmActivities.setPolicy" "abc" initialActivityState).
  apply activity_reachable_init.
Defined.

(** X20.  The digest of a value sends the value again.  After a value
    without the shape of a hash has gone through the tracking of an
    activity, its digest goes through as the same value: the handler is
    sent the value both times, and the second time neither the last value
    nor the files on disk change. *)
Theorem digest_resends_the_value {R : MapRange} (runDir : string)
    (timeSent timeNow : time_Time) (activity value : string)
    (s : ActivityState) (lastValue name : string)
    (valueCache : gmap string CachedValue) :
  MapRangeOk R →
  LastValues s !! activity = Some lastValue →
  ValuesBySha1 s !! activity = Some valueCache →
  sliceFrom 4 (mapGet ActivityChannels activity) = Some name →
  matchHash value = false →
  value ≠ ""%string →
  ∃ s1 s2,
    trackActivityValue runDir timeSent activity value s = (Returns value, s1)
    ∧ trackActivityValue runDir timeNow activity (Sha1.sum_hex value) s1
      = (Returns value, s2)
    ∧ LastValues s2 = LastValues s1
    ∧ ValueFiles s2 = ValueFiles s1.
Proof.
  intros Hok Hlast Hcache Hname Hliteral Hne.
  assert (Hfirst : activityValueCache (ValuesBySha1 s) activity value timeSent
            = Some (value,
                    <[activity := <[Sha1.sum_hex value
                                     := mkCachedValue timeSent value]>
                                    valueCache]> (ValuesBySha1 s))).
  { rewrite (activityValueCache_literal _ _ _ _ _ Hcache Hliteral Hne).
    rewrite cacheMaintain_id by exact Hok. reflexivity. }
  set (caches1 := <[activity := _]> (ValuesBySha1 s)) in Hfirst.
  assert (Hsecond : ∃ caches2,
            activityValueCache caches1 activity (Sha1.sum_hex value) timeNow
            = Some (value, caches2)).
  { destruct (activityValueCache_lookup caches1 activity _
                (Sha1.sum_hex value) timeNow (lookup_insert_eq _ _ _)
                (sum_hex_matches value)) as (caches' & Hcall & _).
    rewrite lookup_insert_eq in Hcall. simpl in Hcall. eauto. }
  destruct Hsecond as [caches2 Hsecond].
  unfold trackActivityValue at 1. rewrite Hlast, Hfirst, Hname.
  destruct (decide (value ≠ lastValue)) as [Hnew|Hsame].
  - eexists. eexists. split; [reflexivity|].
    unfold trackActivityValue. simpl. rewrite lookup_insert_eq, Hsecond.
    rewrite decide_False by (intros Hdiff; apply Hdiff; reflexivity).
    simpl. auto.
  - eexists. eexists. split; [reflexivity|].
    unfold trackActivityValue. simpl. rewrite Hlast, Hsecond.
    rewrite decide_False by exact Hsame.
    simpl. auto.
Qed.

Lemma digest_resends_the_value_witness :
  ∃ s1 s2,
    trackActivityValue (H := rangeForward) "/var/run/load-balancer-servo" 0
      "LoadBalancingVmActivities.setPolicy" "abc" initialActivityState
    = (Returns "abc"%string, s1)
    ∧ trackActivityValue (H := rangeForward) "/var/run/load-balancer-servo"
        7 "LoadBalancingVmActivities.setPolicy" (Sha1.sum_hex "abc") s1
      = (Returns "abc"%string, s2)
    ∧ LastValues s2 = LastValues s1
    ∧ ValueFiles s2 = ValueFiles s1.
Proof.
  apply (digest_resends_the_value (R := rangeForward)
           "/var/run/load-balancer-servo" 0 7
           "LoadBalancingVmActivities.setPolicy" "abc" initialActivityState
           "" "policy" ∅).
  - exact rangeForward_ok.
  - simpl. unfold ActivityLastValues.
    rewrite lookup_insert_ne by discriminate. apply lookup_insert_eq.
  - simpl. unfold ActivityValuesBySha1.
    rewrite lookup_insert_ne by discriminate. apply lookup_insert_eq.
  - vm_compute. reflexivity.
  - vm_compute. reflexivity.
  - discriminate.
Defined.

(** X21.  A digest that is not in the cache sends the empty value.  When
    the last value of the activity was not empty, the empty value also
    becomes the last value and is written to the file of the activity; the
    cache is left as it was. *)
Theorem unknown_digest_blanks_the_value {R : MapRange} (runDir : string)
    (timeNow : time_Time) (activity value : string) (s : ActivityState)
    (lastValue name : string) (valueCache : gmap string CachedValue) :
  MapRangeOk R →
  LastValues s !! activity = Some lastValue →
  ValuesBySha1 s !! activity = Some valueCache →
  sliceFrom 4 (mapGet ActivityChannels activity) = Some name →
  matchHash value = true →
  valueCache !! value = None →
  lastValue ≠ ""%string →
  trackActivityValue runDir timeNow activity value s
  = (Returns ""%string,
     mkActivityState (<[activity := ""%string]> (LastValues s))
       (ValuesBySha1 s)
       (ValueFiles s ++ [(runDir +:+ "/" +:+ name +:+ ".xml", ""%string)])).
Proof.
  intros Hok Hlast Hcache Hname Hm Hmiss Hne.
  assert (Hcall : activityValueCache (ValuesBySha1 s) activity value timeNow
                  = Some (""%string, ValuesBySha1 s)).
  { unfold activityValueCache. rewrite Hm, Hcache. simpl. rewrite Hmiss.
    rewrite decide_False by (intros Hdiff; apply Hdiff; reflexivity).
    rewrite cacheMaintain_id by exact Hok. reflexivity. }
  unfold trackActivityValue. rewrite Hlast, Hcall, Hname.
  rewrite decide_True by congruence. reflexivity.
Qed.

Lemma unknown_digest_blanks_the_value_witness :
  trackActivityValue (H := rangeForward) "/var/run/load-balancer-servo" 7
    "LoadBalancingVmActivities.setPolicy" (Sha1.sum_hex "abc")
    (mkActivityState
       (<["LoadBalancingVmActivities.setPolicy"%string := "xyz"%string]> ∅)
       (<["LoadBalancingVmActivities.setPolicy"%string := ∅]> ∅) [])
  = (Returns ""%string,
     mkActivityState
       (<["LoadBalancingVmActivities.setPolicy"%string := ""%string]>
          (LastValues
             (mkActivityState
                (<["LoadBalancingVmActivities.setPolicy"%string
                   := "xyz"%string]> ∅)
                (<["LoadBalancingVmActivities.setPolicy"%string := ∅]> ∅)
                [])))
       (ValuesBySha1
          (mkActivityState
             (<["LoadBalancingVmActivities.setPolicy"%string
                := "xyz"%string]> ∅)
             (<["LoadBalancingVmActivities.setPolicy"%string := ∅]> ∅) []))
       (ValueFiles
          (mkActivityState
             (<["LoadBalancingVmActivities.setPolicy"%string
                := "xyz"%string]> ∅)
             (<["LoadBalancingVmActivities.setPolicy"%string := ∅]> ∅) [])
        ++ [("/var/run/load-balancer-servo" +:+ "/" +:+ "policy" +:+ ".xml",
             ""%string)])).
Proof.
  apply (unknown_digest_blanks_the_value (R := rangeForward)
           "/var/run/load-balancer-servo" 7
           "LoadBalancingVmActivities.setPolicy" (Sha1.sum_hex "abc")
           (mkActivityState
              (<["LoadBalancingVmActivities.setPolicy"%string
                 := "xyz"%string]> ∅)
              (<["LoadBalancingVmActivities.setPolicy"%string := ∅]> ∅) [])
           "xyz" "policy" ∅).
  - exact rangeForward_ok.
  - apply lookup_insert_eq.
  - apply lookup_insert_eq.
  - vm_compute. reflexivity.
  - apply sum_hex_matches.
  - apply lookup_empty.
  - discriminate.
Defined.

(** X22.  An activity whose last value is not tracked goes past the cache:
    the state is left as it was, and what is sent is the parameter, or the
    default value of the activity when there is no parameter. *)
Theorem untracked_activity_keeps_the_state {R : MapRange} {W : Type}
    {D : RedisDialer W} (runDir : string) (timeNow : time_Time)
    (activity : string) (parameter : option string) (s : ActivityState)
    (w : W) :
  LastValues s !! activity = None →
  doActivity runDir timeNow activity parameter s w
  = (fst (deliverActivityValue activity parameter
            (activityValueOf activity parameter) w),
     s,
     snd (deliverActivityValue activity parameter
            (activityValueOf activity parameter) w)).
Proof.
  intros Hlast. unfold doActivity, trackActivityValue. rewrite Hlast.
  destruct (deliverActivityValue _ _ _ _) as [r w']. reflexivity.
Qed.

Lemma untracked_activity_keeps_the_state_witness :
  doActivity (H := rangeForward)
    (H0 := reachedDialer (recordingHandler (Ok "running"%string)))
    "/var/run/load-balancer-servo" 7
    "LoadBalancingVmActivities.getInstanceStatus" None initialActivityState []
  = (fst (deliverActivityValue
            (H := reachedDialer (recordingHandler (Ok "running"%string)))
            "LoadBalancingVmActivities.getInstanceStatus" None
            (activityValueOf "LoadBalancingVmActivities.getInstanceStatus"
               None) []),
     initialActivityState,
     snd (deliverActivityValue
            (H := reachedDialer (recordingHandler (Ok "running"%string)))
            "LoadBalancingVmActivities.getInstanceStatus" None
            (activityValueOf "LoadBalancingVmActivities.getInstanceStatus"
               None) [])).
Proof.
  apply (untracked_activity_keeps_the_state (R := rangeForward)
           (D := reachedDialer (recordingHandler (Ok "running"%string)))
           "/var/run/load-balancer-servo" 7
           "LoadBalancingVmActivities.getInstanceStatus" None
           initialActivityState []).
  simpl. unfold ActivityLastValues.
  rewrite !lookup_insert_ne by discriminate. apply lookup_empty.
Defined.

(** The out only activity of the witness: the default value is published
    on the channel of the activity, the reply is popped and returned, and
    the handler is closed. *)
Example instance_status_is_asked_for :
  deliverActivityValue
    (H := reachedDialer (recordingHandler (Ok "running"%string)))
    "LoadBalancingVmActivities.getInstanceStatus" None
    (activityValueOf "LoadBalancingVmActivities.getInstanceStatus" None) []
  = (Returns (Ok (Some "running"%string)),
     [Dialed; Published "get-instance-status" "GetInstanceStatus";
      Popped "get-instance-status"; HandlerClosed]).
Proof. vm_compute. reflexivity. Qed.

(** X23.  A receive that fails is not returned as an error: for an activity
    without parameter whose value was sent, the error of [Receive] is
    dropped, there is no reply to read, and the call panics after the
    handler is closed. *)
Theorem failed_receive_panics {W : Type} {D : RedisDialer W}
    (activity value : string) (w w1 w2 w3 : W) (handler : ActivityHandler W)
    (e : error) :
  NewRedisHandler w = (Ok handler, w1) →
  Send handler (mapGet ActivityChannels activity) value w1 = (None, w2) →
  Receive handler (mapGet ActivityChannels activity) w2 = (Err e, w3) →
  deliverActivityValue activity None value w = (Panics, Close handler w3).
Proof.
  intros Hdial Hsend Hreceive. unfold deliverActivityValue.
  rewrite Hdial, Hsend, Hreceive. reflexivity.
Qed.

Lemma failed_receive_panics_witness :
  deliverActivityValue
    (H := reachedDialer (recordingHandler (Err "i/o timeout"%string)))
    "LoadBalancingVmActivities.getInstanceStatus" None "GetInstanceStatus" []
  = (Panics,
     Close (recordingHandler (Err "i/o timeout"%string))
       [Dialed; Published "get-instance-status" "GetInstanceStatus";
        Popped "get-instance-status"]).
Proof.
  apply (failed_receive_panics
           (D := reachedDialer (recordingHandler (Err "i/o timeout"%string)))
           "LoadBalancingVmActivities.getInstanceStatus" "GetInstanceStatus"
           [] [Dialed]
           [Dialed; Published "get-instance-status" "GetInstanceStatus"]
           [Dialed; Published "get-instance-status" "GetInstanceStatus";
            Popped "get-instance-status"]
           (recordingHandler (Err "i/o timeout"%string)) "i/o timeout").
  - reflexivity.
  - vm_compute. reflexivity.
  - vm_compute. reflexivity.
Defined.

(** X24.  A handler that is made is closed: whether the send fails, the
    reply is received or the call panics, the world the call leaves is the
    world after [Close] of the handler; and when no handler can be made,
    the error is returned and nothing is sent. *)
Theorem handler_is_always_closed {W : Type} {D : RedisDialer W}
    (activity : string) (parameter : option string) (value : string)
    (w : W) :
  (∃ err w1,
     NewRedisHandler w = (Err err, w1)
     ∧ deliverActivityValue activity parameter value w
       = (Returns (Err err), w1))
  ∨ (∃ handler w1 w',
       NewRedisHandler w = (Ok handler, w1)
       ∧ snd (deliverActivityValue activity parameter value w)
         = Close handler w').
Proof.
  unfold deliverActivityValue.
  destruct (NewRedisHandler w) as [[handler|err] w1].
  - right. exists handler, w1.
    destruct (Send handler _ value w1) as [[e|] w2]; [eauto|].
    destruct parameter as [p|]; [eauto|].
    destruct (Receive handler _ w2) as [[resultString|e] w3]; eauto.
  - left. eauto.
Qed.

(** ** The polling loop *)

(** X25.  An activity that fails is answered as failed: the message of the
    error goes to [RespondTaskFailed] with the token of the task, and
    [RespondTaskComplete] is not called. *)
Theorem failed_activity_is_answered_failed {R : MapRange} {W C : Type}
    {D : RedisDialer W} (client : SwfActivityClient C) (runDir : string)
    (timeNow : time_Time) (domain taskList : option string)
    (s s' : ActivityState) (w w' : W) (c c1 : C)
    (activityTask : SwfActivityTask) (taskToken taskActivity : string)
    (e : error) :
  PollTasks client domain taskList c = ((activityTask, None), c1) →
  TaskToken activityTask = Some taskToken →
  TaskName activityTask = Some taskActivity →
  doActivity runDir timeNow taskActivity (TaskParameter activityTask) s w
  = (Returns (Err e), s', w') →
  pollActivityTask client runDir timeNow domain taskList s w c
  = (Returns tt, s', w', snd (RespondTaskFailed client taskToken e c1)).
Proof.
  intros Hpoll Htoken Hname Hdone. unfold pollActivityTask.
  rewrite Hpoll, Htoken, Hname, Hdone.
  destruct (RespondTaskFailed client taskToken e c1). reflexivity.
Qed.

Lemma failed_activity_is_answered_failed_witness :
  pollActivityTask (H := rangeForward) (H0 := refusedDialer)
    (recordingClient
       (mkSwfActivityTask (Some "token-1"%string)
          (Some "LoadBalancingVmActivities.getInstanceStatus"%string) None)
       None)
    "/var/run/load-balancer-servo" 7 (Some "LoadbalancingDomain"%string)
    (Some "i-00000000"%string) (mkActivityState ∅ ∅ []) [] []
  = (Returns tt, mkActivityState ∅ ∅ [], [],
     snd (RespondTaskFailed
            (recordingClient
               (mkSwfActivityTask (Some "token-1"%string)
                  (Some "LoadBalancingVmActivities.getInstanceStatus"%string)
                  None)
               None)
            "token-1" "dial tcp :6379: connect: connection refused"
            [Polled])).
Proof.
  apply (failed_activity_is_answered_failed (R := rangeForward)
           (D := refusedDialer)
           (recordingClient
              (mkSwfActivityTask (Some "token-1"%string)
                 (Some "LoadBalancingVmActivities.getInstanceStatus"%string)
                 None)
              None)
           "/var/run/load-balancer-servo" 7 (Some "LoadbalancingDomain"%string)
           (Some "i-00000000"%string) (mkActivityState ∅ ∅ [])
           (mkActivityState ∅ ∅ []) [] [] [] [Polled]
           (mkSwfActivityTask (Some "token-1"%string)
              (Some "LoadBalancingVmActivities.getInstanceStatus"%string)
              None)
           "token-1" "LoadBalancingVmActivities.getInstanceStatus"
           "dial tcp :6379: connect: connection refused").
  - reflexivity.
  - reflexivity.
  - reflexivity.
  - vm_compute. reflexivity.
Defined.

(** X26.  A task that cannot be answered as complete is answered as failed.
    When the activity succeeds and [RespondTaskComplete] returns an error,
    [RespondTaskFailed] is called for the same token with the message of
    that error. *)
Theorem failed_completion_is_answered_failed {R : MapRange} {W C : Type}
    {D : RedisDialer W} (client : SwfActivityClient C) (runDir : string)
    (timeNow : time_Time) (domain taskList : option string)
    (s s' : ActivityState) (w w' : W) (c c1 c2 : C)
    (activityTask : SwfActivityTask) (taskToken taskActivity : string)
    (activityResult : option string) (e : error) :
  PollTasks client domain taskList c = ((activityTask, None), c1) →
  TaskToken activityTask = Some taskToken →
  TaskName activityTask = Some taskActivity →
  doActivity runDir timeNow taskActivity (TaskParameter activityTask) s w
  = (Returns (Ok activityResult), s', w') →
  RespondTaskComplete client taskToken activityResult c1 = (Some e, c2) →
  pollActivityTask client runDir timeNow domain taskList s w c
  = (Returns tt, s', w', snd (RespondTaskFailed client taskToken e c2)).
Proof.
  intros Hpoll Htoken Hname Hdone Hcomplete. unfold pollActivityTask.
  rewrite Hpoll, Htoken, Hname, Hdone, Hcomplete.
  destruct (RespondTaskFailed client taskToken e c2). reflexivity.
Qed.

Lemma failed_completion_is_answered_failed_witness :
  pollActivityTask (H := rangeForward)
    (H0 := reachedDialer (recordingHandler (Ok "running"%string)))
    (recordingClient
       (mkSwfActivityTask (Some "token-1"%string)
          (Some "LoadBalancingVmActivities.getInstanceStatus"%string) None)
       (Some "UnknownResourceFault"%string))
    "/var/run/load-balancer-servo" 7 (Some "LoadbalancingDomain"%string)
    (Some "i-00000000"%string) (mkActivityState ∅ ∅ []) [] []
  = (Returns tt, mkActivityState ∅ ∅ [],
     [Dialed; Published "get-instance-status" "GetInstanceStatus";
      Popped "get-instance-status"; HandlerClosed],
     snd (RespondTaskFailed
            (recordingClient
               (mkSwfActivityTask (Some "token-1"%string)
                  (Some "LoadBalancingVmActivities.getInstanceStatus"%string)
                  None)
               (Some "UnknownResourceFault"%string))
            "token-1" "UnknownResourceFault"
            [Polled; Completed "token-1" (Some "running"%string)])).
Proof.
  apply (failed_completion_is_answered_failed (R := rangeForward)
           (D := reachedDialer (recordingHandler (Ok "running"%string)))
           (recordingClient
              (mkSwfActivityTask (Some "token-1"%string)
                 (Some "LoadBalancingVmActivities.getInstanceStatus"%string)
                 None)
              (Some "UnknownResourceFault"%string))
           "/var/run/load-balancer-servo" 7 (Some "LoadbalancingDomain"%string)
           (Some "i-00000000"%string) (mkActivityState ∅ ∅ [])
           (mkActivityState ∅ ∅ []) []
           [Dialed; Published "get-instance-status" "GetInstanceStatus";
            Popped "get-instance-status"; HandlerClosed]
           [] [Polled]
           [Polled; Completed "token-1" (Some "running"%string)]
           (mkSwfActivityTask (Some "token-1"%string)
              (Some "LoadBalancingVmActivities.getInstanceStatus"%string)
              None)
           "token-1" "LoadBalancingVmActivities.getInstanceStatus"
           (Some "running"%string) "UnknownResourceFault").
  - reflexivity.
  - reflexivity.
  - reflexivity.
  - vm_compute. reflexivity.
  - reflexivity.
Defined.

(** ** The registration of the activities *)

(** X27.  The registration passes over the activity types that exist.
    When the service answers each registration with success or with the
    fault that the type already exists, [RegisterActivities] returns no
    error and has asked for each of the four activities once, under the
    domain given and the version 1.0. *)
Theorem registration_passes_over_existing_types {R : MapRange}
    (respond : string → option sdk_error) (domain : option string) :
  MapRangeOk R →
  (∀ name,
     respond name = None
     ∨ ∃ errorText,
         respond name
         = Some (awserr_Error ErrCodeTypeAlreadyExistsFault errorText)) →
  ∃ names,
    names ≡ₚ activityNames
    ∧ RegisterActivities (H0 := recordingService respond) domain []
      = (None, map (registerInput domain) names).
Proof.
  intros Hok Hrespond.
  exists (map fst (rangeMap _ ActivityChannels)). split.
  - change (map fst (rangeMap _ ActivityChannels))
      with ((rangeMap _ ActivityChannels).*1).
    rewrite (Hok _ ActivityChannels). apply ActivityChannels_names.
  - unfold RegisterActivities. apply registerEach_tolerant.
    apply Forall_forall. intros name _.
    destruct (Hrespond name) as [-> | [errorText ->]]; reflexivity.
Qed.

Lemma registration_passes_over_existing_types_witness :
  ∃ names,
    names ≡ₚ activityNames
    ∧ RegisterActivities (H := rangeBackward)
        (H0 := recordingService
                 (λ _, Some (awserr_Error ErrCodeTypeAlreadyExistsFault
                               "TypeAlreadyExistsFault: exists")))
        (Some "LoadbalancingDomain"%string) []
      = (None,
         map (registerInput (Some "LoadbalancingDomain"%string)) names).
Proof.
  apply (registration_passes_over_existing_types (R := rangeBackward)
           (λ _, Some (awserr_Error ErrCodeTypeAlreadyExistsFault
                         "TypeAlreadyExistsFault: exists"))
           (Some "LoadbalancingDomain"%string)).
  - exact rangeBackward_ok.
  - intros name. right. eexists. reflexivity.
Defined.

(** X28.  The registration ends at the first error that is not the fault
    of an existing type: the error returned names the activity that was
    refused, the activities before it were asked for, and no activity is
    asked for after it. *)
Theorem registration_ends_at_the_first_refusal {R : MapRange}
    (respond : string → option sdk_error) (domain : option string) :
  MapRangeOk R →
  Exists (λ name, is_Some (respond name ≫= registrationError name))
         activityNames →
  ∃ before activityName err message,
    respond activityName = Some err
    ∧ registrationError activityName err = Some message
    ∧ Forall (λ name, respond name ≫= registrationError name = None) before
    ∧ (∀ name, name ∈ before ++ [activityName] → name ∈ activityNames)
    ∧ RegisterActivities (H0 := recordingService respond) domain []
      = (Some message,
         map (registerInput domain) (before ++ [activityName])).
Proof.
  intros Hok Hex.
  assert (Hnames : map fst (rangeMap _ ActivityChannels) ≡ₚ activityNames).
  { change (map fst (rangeMap _ ActivityChannels))
      with ((rangeMap _ ActivityChannels).*1).
    rewrite (Hok _ ActivityChannels). apply ActivityChannels_names. }
  rewrite <- Hnames in Hex.
  destruct (registerEach_refused respond domain _ [] Hex)
    as (before & activityName & after & message & Hsplit & Hbefore & Hm
        & Hcall).
  destruct (respond activityName) as [err|] eqn:Herr; [|discriminate].
  exists before, activityName, err, message.
  split; [exact Herr|]. split; [exact Hm|]. split; [exact Hbefore|].
  split; [|exact Hcall].
  intros name Hin. rewrite <- Hnames, Hsplit.
  rewrite elem_of_app, list_elem_of_singleton in Hin.
  rewrite elem_of_app, elem_of_cons. tauto.
Qed.

Lemma registration_ends_at_the_first_refusal_witness :
  ∃ before activityName err message,
    (λ _ : string, Some (other_error "connection reset")) activityName
    = Some err
    ∧ registrationError activityName err = Some message
    ∧ Forall (λ name,
                (λ _ : string, Some (other_error "connection reset")) name
                ≫= registrationError name = None) before
    ∧ (∀ name, name ∈ before ++ [activityName] → name ∈ activityNames)
    ∧ RegisterActivities (H := rangeForward)
        (H0 := recordingService (λ _, Some (other_error "connection reset")))
        None []
      = (Some message, map (registerInput None) (before ++ [activityName])).
Proof.
  apply (registration_ends_at_the_first_refusal (R := rangeForward)
           (λ _, Some (other_error "connection reset")) None).
  - exact rangeForward_ok.
  - apply Exists_cons_hd. eexists. reflexivity.
Defined.

(** ** The options and the durations *)

(** X29.  The endpoint loses one slash at its end, and one only: an
    endpoint made of any text and a slash is used as that text.  The
    endpoint that is a slash alone is so used as the empty endpoint, and
    of two slashes at the end one is left. *)
Theorem endpoint_loses_one_slash (endpoint : string) :
  configEndpoint (endpoint +:+ "/") = endpoint.
Proof.
  unfold configEndpoint.
  assert (Hne : String.eqb (endpoint +:+ "/") "" = false).
  { apply String.eqb_neq, append_not_empty. discriminate. }
  rewrite Hne, HasSuffix_append. apply TrimSuffix_append.
Qed.

(** X30.  [seconds] gives the nanoseconds of a number of seconds exactly
    for the numbers from -9223372036 to 9223372036, and for no other: the
    product overflows outside of that range. *)
Theorem seconds_is_exact_in_range (durationSeconds : Z) :
  seconds durationSeconds = 1000000000 * durationSeconds
  ↔ -9223372036 ≤ durationSeconds ≤ 9223372036.
Proof.
  unfold seconds, wrap64, time_Second. split.
  - intros Heq.
    pose proof (Z.mod_pos_bound (1000000000 * durationSeconds + 2 ^ 63)
                  (2 ^ 64) ltac:(lia)) as Hbound.
    lia.
  - intros Hrange. rewrite Z.mod_small by lia. lia.
Qed.
